(** * livekit-cli [join-room]: publish-target resolution and streaming ingestion

    A shallow embedding of the [join-room] command of package [main]
    ([joinRoom] and the functions it calls): the specifier parser
    ([parseSocketFromName], [isSocketFormat]), the mime dispatch of
    [publishSocket], frame pacing, the completion hook of [publishFile] and
    [publishReader], the data streaming loop of [publishReader] and the
    publish loop of [joinRoom].

    Go strings are byte strings and are modelled by [string]; Go [int] and
    [time.Duration] values by [Z]; the [float64] frame rate by the rational
    it denotes (finite values only).  The collaborators the code calls but
    does not define (the room session of the SDK, [net.Dial], the reader
    behind a socket) are explicit parameters. *)

From Stdlib Require Import String Ascii List ZArith QArith Qround Bool Lia.
Import ListNotations.

Local Open Scope string_scope.
Local Open Scope Z_scope.

(** ** The parts of Go's [strings] package that the code uses *)

Module strings.

(** [strings.HasPrefix s prefix]. *)
Fixpoint HasPrefix (s prefix : string) {struct prefix} : bool :=
  match prefix, s with
  | EmptyString, _ => true
  | String _ _, EmptyString => false
  | String p prefix', String c s' =>
      if Ascii.eqb c p then HasPrefix s' prefix' else false
  end.

(** [strings.Index s substr]: the byte index of the first instance of
    [substr] in [s], or [-1] when there is none.  [indexFrom i] carries
    the number of bytes already skipped. *)
Fixpoint indexFrom (i : Z) (s substr : string) : Z :=
  if HasPrefix s substr then i
  else match s with
       | EmptyString => -1
       | String _ s' => indexFrom (i + 1) s' substr
       end.

Definition Index (s substr : string) : Z := indexFrom 0 s substr.

(** [strings.Contains s substr] is [Index(s, substr) >= 0]. *)
Definition Contains (s substr : string) : bool := 0 <=? Index s substr.

(** ASCII case folding; [strings.EqualFold] is only ever called against
    the constants [webrtc.MimeTypeVP8] and [webrtc.MimeTypeH264], whose
    letters have no fold partner outside ASCII. *)
Definition foldByte (c : ascii) : ascii :=
  let n := nat_of_ascii c in
  if (andb (Nat.leb 65 n) (Nat.leb n 90)) then ascii_of_nat (n + 32) else c.

Fixpoint EqualFold (s t : string) : bool :=
  match s, t with
  | EmptyString, EmptyString => true
  | String a s', String b t' =>
      if Ascii.eqb (foldByte a) (foldByte b) then EqualFold s' t' else false
  | _, _ => false
  end.

End strings.

(** [len(s)] as a Go [int]. *)
Definition len (s : string) : Z := Z.of_nat (String.length s).

(** The slice expressions [s[:hi]] and [s[lo:]].  Go panics when the bound
    is outside [0..len(s)]; [Index_in_range] below shows that the bounds
    [parseSocketFromName] computes never are, so the total versions are
    enough. *)
Fixpoint takeBytes (n : nat) (s : string) : string :=
  match n, s with
  | S n', String c s' => String c (takeBytes n' s')
  | _, _ => EmptyString
  end.

Fixpoint dropBytes (n : nat) (s : string) : string :=
  match n, s with
  | S n', String _ s' => dropBytes n' s'
  | _, _ => s
  end.

Definition sliceTo (s : string) (hi : Z) : string := takeBytes (Z.to_nat hi) s.
Definition sliceFrom (s : string) (lo : Z) : string := dropBytes (Z.to_nat lo) s.

(** ** Errors *)

(** A Go [error] value.  [Errorf msg] is what [fmt.Errorf] builds, with the
    message already formatted; the other constructors are the error values of
    the collaborators. *)
Inductive error : Type :=
| Errorf (msg : string)
| io_EOF
| ErrUnsupportedFileType
| ExternalError (what : string).

(** ** Constants *)

Definition mimeDelimiter : string := "://".
Definition MimeTypeDataByte : string := "data/byte".

Module webrtc.
Definition MimeTypeH264 : string := "video/H264".
Definition MimeTypeVP8 : string := "video/VP8".
Definition MimeTypeOpus : string := "audio/opus".
End webrtc.

(** ** The specifier parser *)

(** [parseSocketFromName name] returns [(mimeType, socketType, address, err)];
    the three strings are empty whenever [err] is not nil, so the result is a
    sum. *)
Definition parseSocketFromName (name : string)
  : error + (string * string * string) :=
  let offset := strings.Index name mimeDelimiter in
  if offset =? -1 then
    inl (Errorf ("did not find delimiter " ++ mimeDelimiter ++ " in " ++ name))
  else
    let mimeType := sliceTo name offset in
    if negb (String.eqb mimeType "data") && negb (String.eqb mimeType "h264")
       && negb (String.eqb mimeType "vp8") && negb (String.eqb mimeType "opus")
    then inl (Errorf ("unsupported mime type: " ++ mimeType))
    else
      let address := sliceFrom name (offset + len mimeDelimiter) in
      if len address =? 0 then
        inl (Errorf ("address cannot be empty. input was: " ++ name))
      else if negb (strings.Contains address ":") then
        inr (mimeType, "unix", address)
      else
        inr (mimeType, "tcp", address).

Definition isSocketFormat (name : string) : bool :=
  strings.Contains name mimeDelimiter.

(** The [switch] at the head of [publishSocket]: [Some mime] for the case
    taken, [None] for the [default] branch, which returns
    [lksdk.ErrUnsupportedFileType]. *)
Definition publishSocket_mime (mimeType : string) : option string :=
  if strings.Contains mimeType "data" then Some MimeTypeDataByte
  else if strings.Contains mimeType "h264" then Some webrtc.MimeTypeH264
  else if strings.Contains mimeType "vp8" then Some webrtc.MimeTypeVP8
  else if strings.Contains mimeType "opus" then Some webrtc.MimeTypeOpus
  else None.


(** ** The parts of [path/filepath] and [time] that the code uses *)

Module filepath.

(** The loop of [filepath.Ext] walks from the last byte towards the first and
    stops at the first ['.'] (the extension starts there) or path separator
    (no extension).  [scan s] is [Some e] when the walk stops inside [s] with
    result [e], and [None] when it runs through all of [s].  The separator is
    ['/'], as on Linux. *)
Fixpoint scan (s : string) : option string :=
  match s with
  | EmptyString => None
  | String c s' =>
      match scan s' with
      | Some e => Some e
      | None =>
          if Ascii.eqb c "." then Some s
          else if Ascii.eqb c "/" then Some EmptyString
          else None
      end
  end.

Definition Ext (path : string) : string :=
  match scan path with
  | Some e => e
  | None => EmptyString
  end.

End filepath.

Module time.

(** Durations count nanoseconds. *)
Definition Millisecond : Z := 1000000.
Definition Second : Z := 1000000000.

(** The conversion [time.Duration(f)] of a [float64]: the fraction is
    discarded (truncation towards zero). *)
Definition Duration (f : Q) : Z := Z.quot (Qnum f) (Zpos (Qden f)).

(** Integer division [a / b]: truncated towards zero, and a run-time panic
    ([None]) when the divisor is zero. *)
Definition div (a b : Z) : option Z :=
  if b =? 0 then None else Some (Z.quot a b).

End time.

(** [fps != 0] on the frame rate. *)
Definition nonzero (fps : Q) : bool := negb (Qeq_bool fps 0).

(** ** The world the publish functions act on *)

(** An [io.Reader] is given by the results of its successive [Read] calls:
    the bytes delivered and the error returned with them.  Once the script is
    used up every further [Read] returns [0, io.EOF], as a connection closed
    by its peer does. *)
Definition Reader : Type := list (string * option error).

Module bytes.

(** [ReadFrom] of a [bytes.Buffer]: reads from [r] until [io.EOF] and appends to
    the buffer; [io.EOF] is not reported, any other error is.  The result is
    the buffer, the error and what is left of the reader; the count the Go
    function returns is the number of bytes appended. *)
Fixpoint ReadFrom (buf : string) (r : Reader) : string * option error * Reader :=
  match r with
  | [] => (buf, None, [])
  | (chunk, e) :: r' =>
      match e with
      | None => ReadFrom (buf ++ chunk) r'
      | Some io_EOF => (buf ++ chunk, None, r')
      | Some e' => (buf ++ chunk, Some e', r')
      end
  end.

End bytes.

(** [*lksdk.LocalTrackPublication], of which the code only reads [SID()]. *)
Record LocalTrackPublication : Type := { SID : string }.

(** The closure passed to [ReaderTrackWithOnWriteComplete]: the text it
    writes to standard output, and the [pub] variable it captured. *)
Record OnWriteComplete : Type := {
  hookText : string;
  hookPub : nat
}.

Inductive ReaderSampleProviderOption : Type :=
| ReaderTrackWithOnWriteComplete (f : OnWriteComplete)
| ReaderTrackWithFrameDuration (d : Z).

(** What a track is made from: [NewLocalFileTrack(filename, opts...)] or
    [NewLocalReaderTrack(in, mime, opts...)]. *)
Inductive TrackSource : Type :=
| FileSource (filename : string)
| ReaderSource (rd : Reader) (mime : string).

Record LocalSampleTrack : Type := {
  trackSource : TrackSource;
  trackOpts : list ReaderSampleProviderOption
}.

Inductive DataPacket_Kind : Type :=
| DataPacket_RELIABLE
| DataPacket_LOSSY.

(** The calls that leave the process, in the order they are made. *)
Inductive event : Type :=
| Stdout (text : string)
| Printf (format : string)
| Dial (network address : string)
| PublishTrack (track : LocalSampleTrack) (name : string)
| PublishData (payload : string) (kind : DataPacket_Kind)
| UnpublishTrack (sid : string)
| Sleep (d : Z).

(** [vars] holds the [pub] variables that completion hooks captured (each
    call of [publishFile] or [publishReader] declares one, initially nil). *)
Record World : Type := {
  vars : list (option LocalTrackPublication);
  trace : list event
}.

Definition emit (e : event) (w : World) : World :=
  {| vars := vars w; trace := trace w ++ [e] |}.

Definition declarePub (w : World) : nat * World :=
  (List.length (vars w), {| vars := vars w ++ [None]; trace := trace w |}).

Fixpoint setNth {A : Type} (n : nat) (x : A) (l : list A) : list A :=
  match n, l with
  | O, _ :: l' => x :: l'
  | S n', y :: l' => y :: setNth n' x l'
  | _, [] => []
  end.

Definition assignPub (p : nat) (v : option LocalTrackPublication) (w : World)
  : World :=
  {| vars := setNth p v (vars w); trace := trace w |}.

Definition readPub (p : nat) (w : World) : option LocalTrackPublication :=
  match nth_error (vars w) p with
  | Some v => v
  | None => None
  end.

(** How a function call ends: it returns its [error] result, it panics, or
    (for the data loop, run with a bound on its iterations) it is still
    looping when the bound is reached. *)
Inductive outcome : Type :=
| Returns (err : option error)
| Panics (msg : string)
| StillLooping.

(** What [room.LocalParticipant.PublishTrack] does with one track: the
    publication and error it returns, and whether the track's source is
    exhausted (so that the SDK runs the completion hook) while the call is
    still in progress. *)
Record PublishResult : Type := {
  resPub : option LocalTrackPublication;
  resErr : option error;
  exhaustedDuringCall : bool
}.

(** The collaborators. *)
Record Collaborators : Type := {
  net_Dial : string -> string -> error + Reader;
  NewLocalFileTrack : string -> option error;
  NewLocalReaderTrack : Reader -> string -> option error;
  LocalParticipant_PublishTrack : LocalSampleTrack -> PublishResult;
  LocalParticipant_PublishData : list event -> string -> option error
}.

Definition newline : string := String (ascii_of_nat 10) EmptyString.

(** The body of the completion closure: print, then unpublish when [pub] is
    not nil.  The result of [UnpublishTrack] is discarded. *)
Definition runHook (f : OnWriteComplete) (w : World) : World :=
  let w := emit (Stdout (hookText f)) w in
  match readPub (hookPub f) w with
  | Some pub => emit (UnpublishTrack (SID pub)) w
  | None => w
  end.

(** The hook a track was configured with (each option overwrites the one
    before it). *)
Fixpoint hookOf (opts : list ReaderSampleProviderOption) : option OnWriteComplete :=
  match opts with
  | [] => None
  | ReaderTrackWithOnWriteComplete f :: opts' =>
      match hookOf opts' with
      | Some g => Some g
      | None => Some f
      end
  | ReaderTrackWithFrameDuration _ :: opts' => hookOf opts'
  end.

(** The frame duration a track was configured with, if any. *)
Fixpoint frameDurationOf (opts : list ReaderSampleProviderOption) : option Z :=
  match opts with
  | [] => None
  | ReaderTrackWithFrameDuration d :: opts' =>
      match frameDurationOf opts' with
      | Some d' => Some d'
      | None => Some d
      end
  | ReaderTrackWithOnWriteComplete _ :: opts' => frameDurationOf opts'
  end.

(** The SDK reaches the end of a track's source: the hook runs. *)
Definition sourceExhausted (track : LocalSampleTrack) (w : World) : World :=
  match hookOf (trackOpts track) with
  | Some f => runHook f w
  | None => w
  end.

(** A call of [room.LocalParticipant.PublishTrack]. *)
Definition callPublishTrack (c : Collaborators) (track : LocalSampleTrack)
    (name : string) (w : World) : World * PublishResult :=
  let res := LocalParticipant_PublishTrack c track in
  let w := emit (PublishTrack track name) w in
  let w := if exhaustedDuringCall res then sourceExhausted track w else w in
  (w, res).

(** ** Frame pacing *)

(** [time.Second / time.Duration(fps)]. *)
Definition frameDuration (fps : Q) : option Z :=
  time.div time.Second (time.Duration fps).

(** The block "Set frame rate if it's a video stream and FPS is set", shared
    by [publishFile] and [publishReader]: [video] is the outer condition.
    [None] is the run-time panic of the division. *)
Definition setFrameRate (video : bool) (fps : Q)
    (opts : list ReaderSampleProviderOption)
  : option (list ReaderSampleProviderOption) :=
  if video then
    if nonzero fps then
      match frameDuration fps with
      | Some d => Some (opts ++ [ReaderTrackWithFrameDuration d])%list
      | None => None
      end
    else Some opts
  else Some opts.

Definition divideByZero : string := "runtime error: integer divide by zero".

(** ** Publishing *)

Definition publishFile (c : Collaborators) (filename : string) (fps : Q)
    (w : World) : World * outcome :=
  let (pub, w) := declarePub w in
  let opts := [ReaderTrackWithOnWriteComplete
                 {| hookText := "finished writing file " ++ filename ++ newline;
                    hookPub := pub |}] in
  let ext := filepath.Ext filename in
  match setFrameRate (String.eqb ext ".h264" || String.eqb ext ".ivf") fps opts with
  | None => (w, Panics divideByZero)
  | Some opts =>
      match NewLocalFileTrack c filename with
      | Some err => (w, Returns (Some err))
      | None =>
          let track := {| trackSource := FileSource filename; trackOpts := opts |} in
          let (w, res) := callPublishTrack c track filename w in
          let w := assignPub pub (resPub res) w in
          (w, Returns (resErr res))
      end
  end.

(** The [for] loop of [publishReader], run for at most [fuel] iterations.
    The reader returned is what is left of [in] when the loop stops. *)
Fixpoint dataLoop (c : Collaborators) (mime : string) (fuel : nat)
    (rd : Reader) (w : World) : World * Reader * outcome :=
  match fuel with
  | O => (w, rd, StillLooping)
  | S fuel' =>
      let '(data, err, rd) := bytes.ReadFrom EmptyString rd in
      let numOfByte := len data in
      match err with
      | Some e => (w, rd, Returns (Some e))
      | None =>
          if 0 <? numOfByte then
            if String.eqb data "EXIT" then
              (w, rd, Returns (Some (Errorf ("finished writing " ++ mime ++ " stream"))))
            else
              let w := emit (Printf (data ++ newline)) w in
              let err := LocalParticipant_PublishData c (trace w) data in
              let w := emit (PublishData data DataPacket_RELIABLE) w in
              match err with
              | Some e => (w, rd, Returns (Some e))
              | None =>
                  dataLoop c mime fuel' rd (emit (Sleep (10 * time.Millisecond)) w)
              end
          else
            dataLoop c mime fuel' rd (emit (Sleep (10 * time.Millisecond)) w)
      end
  end.

Definition publishReader (c : Collaborators) (fuel : nat) (rd : Reader)
    (mime : string) (fps : Q) (w : World) : World * Reader * outcome :=
  let (pub, w) := declarePub w in
  let opts := [ReaderTrackWithOnWriteComplete
                 {| hookText := "finished writing " ++ mime ++ " stream" ++ newline;
                    hookPub := pub |}] in
  match setFrameRate (strings.EqualFold mime webrtc.MimeTypeVP8
                      || strings.EqualFold mime webrtc.MimeTypeH264) fps opts with
  | None => (w, rd, Panics divideByZero)
  | Some opts =>
      if negb (String.eqb mime MimeTypeDataByte) then
        match NewLocalReaderTrack c rd mime with
        | Some err => (w, rd, Returns (Some err))
        | None =>
            let track := {| trackSource := ReaderSource rd mime; trackOpts := opts |} in
            let (w, res) := callPublishTrack c track EmptyString w in
            let w := assignPub pub (resPub res) w in
            (w, rd, Returns (resErr res))
        end
      else dataLoop c mime fuel rd w
  end.

Definition publishSocket (c : Collaborators) (fuel : nat)
    (mimeType socketType address : string) (fps : Q) (w : World)
  : World * outcome :=
  match publishSocket_mime mimeType with
  | None => (w, Returns (Some ErrUnsupportedFileType))
  | Some mime =>
      let w := emit (Dial socketType address) w in
      match net_Dial c socketType address with
      | inl err => (w, Returns (Some err))
      | inr sock =>
          let '(w, _, o) := publishReader c fuel sock mime fps w in (w, o)
      end
  end.

Definition handlePublish (c : Collaborators) (fuel : nat) (name : string)
    (fps : Q) (w : World) : World * outcome :=
  if isSocketFormat name then
    match parseSocketFromName name with
    | inl err => (w, Returns (Some err))
    | inr (mimeType, socketType, address) =>
        publishSocket c fuel mimeType socketType address fps w
    end
  else publishFile c name fps w.

(** The loop of [joinRoom] over [c.StringSlice("publish")].  [Returns None]
    is the loop running to its end; any other outcome of [handlePublish]
    leaves the loop at once ([return err]). *)
Fixpoint joinRoom_publish (c : Collaborators) (fuel : nat)
    (pubs : list string) (fps : Q) (w : World) : World * outcome :=
  match pubs with
  | [] => (w, Returns None)
  | pub :: rest =>
      match handlePublish c fuel pub fps w with
      | (w, Returns None) => joinRoom_publish c fuel rest fps w
      | (w, o) => (w, o)
      end
  end.

(** ** What the statements below speak about *)

(** [sub] occurs in [s] at byte offset [n]. *)
Definition occursAt (sub s : string) (n : nat) : Prop :=
  exists a b, s = a ++ sub ++ b /\ String.length a = n.

(** [name] reads [l], then the delimiter, then [r], and the delimiter does
    not occur in [name] before that place: [l] is the text left of the first
    occurrence of the delimiter and [r] the text right of it. *)
Definition firstSplit (name l r : string) : Prop :=
  name = l ++ mimeDelimiter ++ r /\
  forall n, (n < String.length l)%nat -> ~ occursAt mimeDelimiter name n.

(** The mime keys the parser accepts. *)
Definition mimeKeys : list string := ["data"; "h264"; "vp8"; "opus"].

(** The frame pacer as the specification words it, to compare with
    [setFrameRate]: no duration when the rate is 0, otherwise 1/rate
    converted to the time unit (whole nanoseconds). *)
Definition FramePacer_compute (rate : Q) : option Z :=
  if Qeq_bool rate 0 then None
  else Some (Qfloor (inject_Z time.Second / rate)).

(** The tracks handed to [PublishTrack], the track ids handed to
    [UnpublishTrack] and the payloads handed to [PublishData] in a trace. *)
Fixpoint publishedTracks (t : list event) : list LocalSampleTrack :=
  match t with
  | [] => []
  | PublishTrack track _ :: t' => track :: publishedTracks t'
  | _ :: t' => publishedTracks t'
  end.

Fixpoint unpublishCalls (t : list event) : list string :=
  match t with
  | [] => []
  | UnpublishTrack sid :: t' => sid :: unpublishCalls t'
  | _ :: t' => unpublishCalls t'
  end.

Fixpoint dataMessages (t : list event) : list (string * DataPacket_Kind) :=
  match t with
  | [] => []
  | PublishData payload kind :: t' => (payload, kind) :: dataMessages t'
  | _ :: t' => dataMessages t'
  end.

(** The events the data loop can add to a trace. *)
Definition dataLoopEvent (e : event) : Prop :=
  match e with
  | Printf _ => True
  | PublishData payload kind =>
      payload <> "EXIT" /\ payload <> "" /\ kind = DataPacket_RELIABLE
  | Sleep d => d = 10 * time.Millisecond
  | _ => False
  end.

(** [name] is published as a video stream: a socket specifier whose key is
    h264 or vp8, or a file whose extension is .h264 or .ivf. *)
Definition videoSpecifier (name : string) : Prop :=
  (isSocketFormat name = true /\
   exists k s a, parseSocketFromName name = inr (k, s, a) /\
                 (k = "h264" \/ k = "vp8")) \/
  (isSocketFormat name = false /\
   (filepath.Ext name = ".h264" \/ filepath.Ext name = ".ivf")).

(** ** Concrete collaborators and sources used in the examples *)

Definition emptyWorld : World := {| vars := []; trace := [] |}.

Definition TR_1 : LocalTrackPublication := {| SID := "TR_1" |}.

(** A session that accepts every track and every message; sockets connect
    unless the address is ["nohost:1"]; [early] tells whether the source of a
    track is exhausted while [PublishTrack] is in progress. *)
Definition session (early : bool) (sock : Reader) : Collaborators := {|
  net_Dial := fun _ address =>
    if String.eqb address "nohost:1"
    then inl (ExternalError "dial tcp: connection refused")
    else inr sock;
  NewLocalFileTrack := fun _ => None;
  NewLocalReaderTrack := fun _ _ => None;
  LocalParticipant_PublishTrack := fun _ =>
    {| resPub := Some TR_1; resErr := None; exhaustedDuringCall := early |};
  LocalParticipant_PublishData := fun _ _ => None
|}.

(** A source whose successive [ReadFrom] results are hello, EXIT, world:
    each chunk is followed by [io.EOF], which ends one [ReadFrom]. *)
Definition helloExitWorld : Reader :=
  [("hello", Some io_EOF); ("EXIT", Some io_EOF); ("world", Some io_EOF)].


(** [n] rounds of the data loop in which nothing is read: [n] sleeps. *)
Fixpoint idle (n : nat) (w : World) : World :=
  match n with
  | O => w
  | S n' => idle n' (emit (Sleep (10 * time.Millisecond)) w)
  end.

(** The track [publishFile] makes of clip.ivf at 25 frames per second in
    the empty world, and the world once it is published. *)
Definition clipTrack : LocalSampleTrack := {|
  trackSource := FileSource "clip.ivf";
  trackOpts :=
    [ReaderTrackWithOnWriteComplete
       {| hookText := "finished writing file clip.ivf" ++ newline; hookPub := 0 |};
     ReaderTrackWithFrameDuration (40 * time.Millisecond)]
|}.

Definition clipPublished : World :=
  {| vars := [Some TR_1]; trace := [PublishTrack clipTrack "clip.ivf"] |}.

(** ** Further notions: bounds-checked slices, chunks, pacing *)

(** The slice expression [s[lo:hi]] with the bounds check Go makes: [None]
    is the run-time panic "slice bounds out of range". *)
Definition slice (s : string) (lo hi : Z) : option string :=
  if (0 <=? lo) && (lo <=? hi) && (hi <=? len s)
  then Some (takeBytes (Z.to_nat (hi - lo)) (dropBytes (Z.to_nat lo) s))
  else None.

(** The transport [parseSocketFromName] derives from an address. *)
Definition transportOf (address : string) : string :=
  if strings.Contains address ":" then "tcp" else "unix".

(** The chunks a reader delivers to the data loop: the bytes between one
    end-of-stream mark (or read error) and the next, each with the error
    that ended it.  The last chunk is what precedes the end of the script;
    it may be empty. *)
Fixpoint chunksFrom (buf : string) (rd : Reader) : list (string * option error) :=
  match rd with
  | [] => [(buf, None)]
  | (chunk, None) :: rd' => chunksFrom (buf ++ chunk) rd'
  | (chunk, Some io_EOF) :: rd' => (buf ++ chunk, None) :: chunksFrom "" rd'
  | (chunk, Some e) :: rd' => (buf ++ chunk, Some e) :: chunksFrom "" rd'
  end.

Definition chunks (rd : Reader) : list (string * option error) :=
  chunksFrom "" rd.

(** The chunks to forward, in order: the non-empty ones that come before the
    first read error and the first sentinel. *)
Fixpoint forwarded (cs : list (string * option error)) : list string :=
  match cs with
  | [] => []
  | (_, Some _) :: _ => []
  | (data, None) :: cs' =>
      if String.eqb data "" then forwarded cs'
      else if String.eqb data "EXIT" then []
      else data :: forwarded cs'
  end.

(** How the loop ends on these chunks: with the first read error, with the
    error of the sentinel, or not at all. *)
Fixpoint stopsWith (mime : string) (cs : list (string * option error)) : outcome :=
  match cs with
  | [] => StillLooping
  | (_, Some e) :: _ => Returns (Some e)
  | (data, None) :: cs' =>
      if String.eqb data "EXIT"
      then Returns (Some (Errorf ("finished writing " ++ mime ++ " stream")))
      else stopsWith mime cs'
  end.

(** The time slept and the sockets dialled in a trace. *)
Fixpoint sleepTime (t : list event) : Z :=
  match t with
  | [] => 0
  | Sleep d :: t' => d + sleepTime t'
  | _ :: t' => sleepTime t'
  end.

Fixpoint dials (t : list event) : list (string * string) :=
  match t with
  | [] => []
  | Dial network address :: t' => (network, address) :: dials t'
  | _ :: t' => dials t'
  end.

(** A source with a chunk delivered in two reads, an empty chunk, the
    sentinel, and a chunk after it. *)
Definition mixedSource : Reader :=
  [("a", None); ("b", Some io_EOF); ("", Some io_EOF);
   ("c", Some io_EOF); ("EXIT", Some io_EOF); ("d", Some io_EOF)].

(** ** Connection details: [loadProjectDetails] *)

(** [strings.Join]. *)
Fixpoint strings_Join (elems : list string) (sep : string) : string :=
  match elems with
  | [] => ""
  | [e] => e
  | e :: elems' => e ++ sep ++ strings_Join elems' sep
  end.

(** [config.ProjectConfig] is declared outside these files; the record has
    the fields that the code reads and writes. *)
Record ProjectConfig : Type := {
  Name : string;
  URL : string;
  Token : string;
  APIKey : string;
  APISecret : string
}.

(** The zero value [&config.ProjectConfig{}]. *)
Definition emptyProject : ProjectConfig :=
  {| Name := ""; URL := ""; Token := ""; APIKey := ""; APISecret := "" |}.

(** The assignments [pc.URL = val], [pc.Token = val], ... *)
Definition setURL (val : string) (pc : ProjectConfig) : ProjectConfig :=
  {| Name := Name pc; URL := val; Token := Token pc;
     APIKey := APIKey pc; APISecret := APISecret pc |}.
Definition setToken (val : string) (pc : ProjectConfig) : ProjectConfig :=
  {| Name := Name pc; URL := URL pc; Token := val;
     APIKey := APIKey pc; APISecret := APISecret pc |}.
Definition setAPIKey (val : string) (pc : ProjectConfig) : ProjectConfig :=
  {| Name := Name pc; URL := URL pc; Token := Token pc;
     APIKey := val; APISecret := APISecret pc |}.
Definition setAPISecret (val : string) (pc : ProjectConfig) : ProjectConfig :=
  {| Name := Name pc; URL := URL pc; Token := Token pc;
     APIKey := APIKey pc; APISecret := val |}.

(** [*cli.Context], through the accessors the code calls on it.  A nil
    string slice is the empty list. *)
Record Context : Type := {
  ctxString : string -> string;
  ctxBool : string -> bool;
  ctxStringSlice : string -> list string;
  ctxFloat64 : string -> Q
}.

(** What [loadProjectDetails] asks of its surroundings: the environment
    variables, the project files of package [config], and [masker.ID]. *)
Record Surroundings : Type := {
  os_Getenv : string -> string;
  config_LoadProject : string -> error + ProjectConfig;
  config_LoadDefaultProject : error + ProjectConfig;
  masker_ID : string -> string
}.

Record loadParams : Type := { requireURL : bool }.

Definition loadOption : Type := loadParams -> loadParams.

Definition ignoreURL : loadOption := fun _ => {| requireURL := false |}.

(** [errors.New]: an error that is its message. *)
Definition errors_New (text : string) : error := Errorf text.

(** The closure [logDetails]; the result is what it prints. *)
Definition logDetails (sur : Surroundings) (c : Context) (pc : ProjectConfig)
  : list string :=
  if ctxBool c "verbose" then
    ["URL: " ++ URL pc ++ ", api-key: " ++ APIKey pc ++ ", api-secret: "
       ++ masker_ID sur (APISecret pc) ++ newline]
  else [].

(** The notice both flag branches end with: nothing when no value came from
    the environment. *)
Definition usingEnvironment (sur : Surroundings) (c : Context)
    (pc : ProjectConfig) (envVars : list string) : list string :=
  if 0 <? Z.of_nat (List.length envVars) then
    ("Using " ++ strings_Join envVars ", " ++ " from environment" ++ newline)
      :: logDetails sur c pc
  else [].

Definition nonEmpty (s : string) : bool := negb (String.eqb s "").

(** The four assignments that fill [pc] from the flags. *)
Definition pcFromFlags (c : Context) : ProjectConfig :=
  let pc := emptyProject in
  let pc := let val := ctxString c "url" in
            if nonEmpty val then setURL val pc else pc in
  let pc := let val := ctxString c "token" in
            if nonEmpty val then setToken val pc else pc in
  let pc := let val := ctxString c "api-key" in
            if nonEmpty val then setAPIKey val pc else pc in
  let pc := let val := ctxString c "api-secret" in
            if nonEmpty val then setAPISecret val pc else pc in
  pc.

(** [loadProjectDetails c opts...]: what it prints, and the pair it returns
    (a nil config with an error, or a config with a nil error). *)
Definition loadProjectDetails (sur : Surroundings) (c : Context)
    (opts : list loadOption) : list string * (error + ProjectConfig) :=
  let p := fold_left (fun p opt => opt p) opts {| requireURL := true |} in
  if nonEmpty (ctxString c "project") then
    match config_LoadProject sur (ctxString c "project") with
    | inl err => ([], inl err)
    | inr pc =>
        (("Using project: " ++ ctxString c "project" ++ newline)
           :: logDetails sur c pc, inr pc)
    end
  else
    let pc := pcFromFlags c in
    if nonEmpty (Token pc) && (nonEmpty (URL pc) || negb (requireURL p)) then
      let envVars := [] in
      let envVars :=
        if String.eqb (os_Getenv sur "LIVEKIT_URL") (URL pc) && nonEmpty (URL pc)
        then (envVars ++ ["url"])%list else envVars in
      let envVars :=
        if String.eqb (os_Getenv sur "LIVEKIT_TOKEN") (Token pc)
        then (envVars ++ ["token"])%list else envVars in
      (usingEnvironment sur c pc envVars, inr pc)
    else if nonEmpty (APIKey pc) && nonEmpty (APISecret pc)
            && (nonEmpty (URL pc) || negb (requireURL p)) then
      let envVars := [] in
      let envVars :=
        if String.eqb (os_Getenv sur "LIVEKIT_URL") (URL pc) && nonEmpty (URL pc)
        then (envVars ++ ["url"])%list else envVars in
      let envVars :=
        if String.eqb (os_Getenv sur "LIVEKIT_API_KEY") (APIKey pc)
        then (envVars ++ ["api-key"])%list else envVars in
      let envVars :=
        if String.eqb (os_Getenv sur "LIVEKIT_API_SECRET") (APISecret pc)
        then (envVars ++ ["api-secret"])%list else envVars in
      (usingEnvironment sur c pc envVars, inr pc)
    else
      match config_LoadDefaultProject sur with
      | inr dp =>
          (("Using default project " ++ Name dp ++ newline)
             :: logDetails sur c dp, inr dp)
      | inl _ =>
          if requireURL p && String.eqb (URL pc) "" then
            ([], inl (errors_New "url is required"))
          else if String.eqb (Token pc) "" && String.eqb (APIKey pc) ""
                  && String.eqb (APISecret pc) "" then
            ([], inl (errors_New "token is required"))
          else if String.eqb (APIKey pc) "" then
            ([], inl (errors_New "api-key is required"))
          else if String.eqb (APISecret pc) "" then
            ([], inl (errors_New "api-secret is required"))
          else ([], inr pc)
      end.

(** The configuration the flags describe. *)
Definition flagsProject (c : Context) : ProjectConfig :=
  {| Name := ""; URL := ctxString c "url"; Token := ctxString c "token";
     APIKey := ctxString c "api-key"; APISecret := ctxString c "api-secret" |}.

(** The flags are enough to connect: a token, or a key with its secret, and
    a URL where one is required. *)
Definition flagsComplete (required : bool) (c : Context) : Prop :=
  (ctxString c "token" <> "" \/
   (ctxString c "api-key" <> "" /\ ctxString c "api-secret" <> "")) /\
  (ctxString c "url" <> "" \/ required = false).

(** The item the last four checks name: the first one missing. *)
Definition firstMissing (required : bool) (c : Context) : string :=
  if required && String.eqb (ctxString c "url") "" then "url"
  else if String.eqb (ctxString c "token") ""
          && String.eqb (ctxString c "api-key") ""
          && String.eqb (ctxString c "api-secret") "" then "token"
  else if String.eqb (ctxString c "api-key") "" then "api-key"
  else "api-secret".

Definition requiredOf (opts : list loadOption) : bool :=
  requireURL (fold_left (fun p opt => opt p) opts {| requireURL := true |}).

(** A context given by the values of its string flags; [verbose] is on. *)
Definition contextOf (values : list (string * string)) : Context := {|
  ctxString := fun name =>
    match find (fun kv => String.eqb (fst kv) name) values with
    | Some kv => snd kv
    | None => ""
    end;
  ctxBool := fun name => String.eqb name "verbose";
  ctxStringSlice := fun _ => [];
  ctxFloat64 := fun _ => 0%Q
|}.

(** Surroundings with an empty environment, no project files, and a masker
    that hides everything. *)
Definition bareSurroundings : Surroundings := {|
  os_Getenv := fun _ => "";
  config_LoadProject := fun _ => inl (ExternalError "project not found");
  config_LoadDefaultProject := inl (ExternalError "no default project set");
  masker_ID := fun _ => "****"
|}.

(** ** The command: [joinRoom] and [publishDemo] *)

(** [lksdk.ConnectInfo], with the fields that [joinRoom] fills. *)
Record ConnectInfo : Type := {
  infoAPIKey : string;
  infoAPISecret : string;
  RoomName : string;
  ParticipantIdentity : string
}.

(** A looper of the video provider; the code passes it on ([Codec()],
    [ToLayer(quality)], [StartWrite]) and never looks inside, so it is
    given by a name. *)
Definition VideoLooper : Type := string.

(** A sample track of the demo: the looper it is made for
    ([NewLocalSampleTrack(looper.Codec(), WithSimulcast("demo-video",
    looper.ToLayer(quality)))]) and the quality of its layer. *)
Record DemoTrack : Type := {
  demoLooper : VideoLooper;
  demoQuality : Z
}.

(** The calls of the command that leave the process, in order; the calls of
    the publish functions are carried by [Publish]. *)
Inductive joinEvent : Type :=
| Printed (text : string)
| ConnectToRoomWithToken (url token : string)
| ConnectToRoom (url : string) (info : ConnectInfo)
| Infow (msg room : string)
| CreateVideoLoopers
| NewLocalSampleTrack (track : DemoTrack)
| StartWrite (track : DemoTrack)
| PublishSimulcastTrack (tracks : list DemoTrack) (name : string)
| Publish (e : event)
| Disconnect.

(** What the command calls outside itself.  A connection that succeeds
    gives the name of the room. *)
Record Services : Type := {
  surroundings : Surroundings;
  lksdk_ConnectToRoomWithToken : string -> string -> error + string;
  lksdk_ConnectToRoom : string -> ConnectInfo -> error + string;
  provider_CreateVideoLoopers : error + list VideoLooper;
  lksdk_NewLocalSampleTrack : DemoTrack -> option error;
  track_StartWrite : DemoTrack -> option error;
  room_PublishSimulcastTrack : list DemoTrack -> option error;
  room : Collaborators
}.

(** The loop of [publishDemo] from index [i] on, with the tracks made so
    far: the calls made, and the tracks or the first error. *)
Fixpoint demoLoop (sv : Services) (i : Z) (loopers : list VideoLooper)
    (tracks : list DemoTrack) : list joinEvent * (error + list DemoTrack) :=
  match loopers with
  | [] => ([], inr tracks)
  | looper :: rest =>
      let track := {| demoLooper := looper; demoQuality := i |} in
      match lksdk_NewLocalSampleTrack sv track with
      | Some err => ([NewLocalSampleTrack track], inl err)
      | None =>
          match track_StartWrite sv track with
          | Some err => ([NewLocalSampleTrack track; StartWrite track], inl err)
          | None =>
              let (t, r) := demoLoop sv (i + 1) rest (tracks ++ [track])%list in
              (NewLocalSampleTrack track :: StartWrite track :: t, r)
          end
      end
  end.

Definition publishDemo (sv : Services) : list joinEvent * option error :=
  match provider_CreateVideoLoopers sv with
  | inl err => ([CreateVideoLoopers], Some err)
  | inr loopers =>
      let (t, r) := demoLoop sv 0 loopers [] in
      match r with
      | inl err => (CreateVideoLoopers :: t, Some err)
      | inr tracks =>
          (((CreateVideoLoopers :: t) ++ [PublishSimulcastTrack tracks "demo"])%list,
           room_PublishSimulcastTrack sv tracks)
      end
  end.

(** How [joinRoom] stands: it has returned, it has panicked, it is still in
    a data loop (run with a bound), or it waits on [done] for a signal that
    has not come. *)
Inductive joinOutcome : Type :=
| Returned (err : option error)
| Panicked (msg : string)
| StillPublishing
| WaitingForSignal.

(** [joinRoom] from "connected to room" on; [room.Disconnect] is deferred
    around this part.  [signalled] tells whether one of the signals
    notified on [done] arrives. *)
Definition joinRoom_connected (sv : Services) (c : Context) (signalled : bool)
    (fuel : nat) : list joinEvent * joinOutcome :=
  let (td, derr) :=
    if ctxBool c "publish-demo" then publishDemo sv else ([], None) in
  match derr with
  | Some err => (td, Returned (Some err))
  | None =>
      let (w, o) :=
        joinRoom_publish (room sv) fuel (ctxStringSlice c "publish")
          (ctxFloat64 c "fps") emptyWorld in
      let t := (td ++ map Publish (trace w))%list in
      match o with
      | Returns None => (t, if signalled then Returned None else WaitingForSignal)
      | Returns (Some err) => (t, Returned (Some err))
      | Panics msg => (t, Panicked msg)
      | StillLooping => (t, StillPublishing)
      end
  end.

Definition joinRoom (sv : Services) (c : Context) (signalled : bool)
    (fuel : nat) : list joinEvent * joinOutcome :=
  let (out, r) := loadProjectDetails (surroundings sv) c [] in
  let t := map Printed out in
  match r with
  | inl err => (t, Returned (Some err))
  | inr pc =>
      let (call, res) :=
        if nonEmpty (Token pc) then
          (ConnectToRoomWithToken (URL pc) (Token pc),
           lksdk_ConnectToRoomWithToken sv (URL pc) (Token pc))
        else
          let info := {| infoAPIKey := APIKey pc; infoAPISecret := APISecret pc;
                         RoomName := ctxString c "room";
                         ParticipantIdentity := ctxString c "identity" |} in
          (ConnectToRoom (URL pc) info, lksdk_ConnectToRoom sv (URL pc) info) in
      match res with
      | inl err => ((t ++ [call])%list, Returned (Some err))
      | inr roomName =>
          let t := (t ++ [call; Infow "connected to room" roomName])%list in
          let (t', o) := joinRoom_connected sv c signalled fuel in
          match o with
          | Returned _ | Panicked _ => ((t ++ t' ++ [Disconnect])%list, o)
          | StillPublishing | WaitingForSignal => ((t ++ t')%list, o)
          end
      end
  end.

(** The tracks of the demo: one for each looper, in order, the quality being
    the index of the looper. *)
Fixpoint demoTracksOf (i : Z) (loopers : list VideoLooper) : list DemoTrack :=
  match loopers with
  | [] => []
  | looper :: rest =>
      {| demoLooper := looper; demoQuality := i |} :: demoTracksOf (i + 1) rest
  end.

(** The events that use the room. *)
Definition usesRoom (e : joinEvent) : Prop :=
  match e with
  | Printed _ | ConnectToRoomWithToken _ _ | ConnectToRoom _ _ | Infow _ _ => False
  | _ => True
  end.

(** Services for the examples: every connection gives the room "lobby", the
    provider has three loopers, and [StartWrite] fails for the looper named
    by [broken]. *)
Definition services (sur : Surroundings) (broken : string) (c : Collaborators)
  : Services := {|
  surroundings := sur;
  lksdk_ConnectToRoomWithToken := fun _ _ => inr "lobby";
  lksdk_ConnectToRoom := fun _ _ => inr "lobby";
  provider_CreateVideoLoopers := inr ["high"; "medium"; "low"];
  lksdk_NewLocalSampleTrack := fun _ => None;
  track_StartWrite := fun track =>
    if String.eqb (demoLooper track) broken
    then Some (ExternalError "start write") else None;
  room_PublishSimulcastTrack := fun _ => None;
  room := c
|}.

(** A context with the flags of a token connection and the given specifiers
    to publish. *)
Definition tokenContext (demo : bool) (pubs : list string) : Context := {|
  ctxString := fun name =>
    if String.eqb name "url" then "ws://lk.example"
    else if String.eqb name "token" then "tok" else "";
  ctxBool := fun name => String.eqb name "publish-demo" && demo;
  ctxStringSlice := fun name => if String.eqb name "publish" then pubs else [];
  ctxFloat64 := fun _ => 0%Q
|}.

(** The two connection calls, the calls made while publishing, and the
    outcomes with which [joinRoom] has left its body (so that the deferred
    [room.Disconnect] has run). *)
Definition isConnect (e : joinEvent) : Prop :=
  match e with
  | ConnectToRoomWithToken _ _ | ConnectToRoom _ _ => True
  | _ => False
  end.

Definition publishingEvent (e : joinEvent) : Prop :=
  match e with
  | CreateVideoLoopers | NewLocalSampleTrack _ | StartWrite _
  | PublishSimulcastTrack _ _ | Publish _ => True
  | _ => False
  end.

Definition ended (o : joinOutcome) : bool :=
  match o with
  | Returned _ | Panicked _ => true
  | StillPublishing | WaitingForSignal => false
  end.

(** The calls of [publishDemo]. *)
Definition demoEvent (e : joinEvent) : Prop :=
  match e with
  | CreateVideoLoopers | NewLocalSampleTrack _ | StartWrite _
  | PublishSimulcastTrack _ _ => True
  | _ => False
  end.

(* ================================================================== *)
(** * Properties *)
(* ================================================================== *)

(** ** Strings *)

Lemma HasPrefix_spec (sub s : string) :
  strings.HasPrefix s sub = true <-> exists b, s = sub ++ b.
Proof.
  revert s; induction sub as [|p sub IH]; intros s; simpl.
  - split; [intros _; now exists s | reflexivity].
  - destruct s as [|c s]; simpl.
    + split; [discriminate | intros [b Hb]; discriminate].
    + destruct (Ascii.eqb c p) eqn:E.
      * apply Ascii.eqb_eq in E; subst c.
        rewrite IH. split; intros [b Hb]; exists b.
        -- now rewrite Hb.
        -- now injection Hb.
      * apply Ascii.eqb_neq in E.
        split; [discriminate | intros [b Hb]; injection Hb; intros; congruence].
Qed.

Lemma length_app (a b : string) :
  String.length (a ++ b) = (String.length a + String.length b)%nat.
Proof. induction a; simpl; congruence. Qed.

Lemma append_nil_r (a : string) : a ++ "" = a.
Proof. induction a; simpl; congruence. Qed.

Lemma append_assoc (a b d : string) : (a ++ b) ++ d = a ++ (b ++ d).
Proof. induction a; simpl; congruence. Qed.

Lemma takeBytes_app (a b : string) : takeBytes (String.length a) (a ++ b) = a.
Proof. induction a; simpl; [now destruct b | congruence]. Qed.

Lemma dropBytes_app (a b : string) : dropBytes (String.length a) (a ++ b) = b.
Proof. induction a; simpl; [now destruct b | assumption]. Qed.

(** What [indexFrom] returns: [-1], or the start [i] plus an offset at which
    [sub] occurs, the first such offset. *)
Lemma indexFrom_spec (sub s : string) (i : Z) :
  (strings.indexFrom i s sub = -1 /\ forall n, ~ occursAt sub s n) \/
  (exists n, strings.indexFrom i s sub = i + Z.of_nat n /\ occursAt sub s n /\
             forall m, (m < n)%nat -> ~ occursAt sub s m).
Proof.
  revert i; induction s as [|c s IH]; intros i; simpl.
  - destruct (strings.HasPrefix "" sub) eqn:E.
    + right; exists 0%nat. rewrite Z.add_0_r. split; [reflexivity|].
      apply HasPrefix_spec in E as [b Hb].
      split; [now exists "", b | intros m Hm; lia].
    + left; split; [reflexivity|]. intros n (a & b & Hab & Hn).
      destruct a; [|discriminate]. simpl in Hab.
      assert (strings.HasPrefix "" sub = true) by (apply HasPrefix_spec; now exists b).
      congruence.
  - destruct (strings.HasPrefix (String c s) sub) eqn:E.
    + right; exists 0%nat. rewrite Z.add_0_r. split; [reflexivity|].
      apply HasPrefix_spec in E as [b Hb].
      split; [now exists "", b | intros m Hm; lia].
    + assert (H0 : ~ occursAt sub (String c s) 0).
      { intros (a & b & Hab & Hn). destruct a; [|discriminate]. simpl in Hab.
        assert (strings.HasPrefix (String c s) sub = true)
          by (apply HasPrefix_spec; now exists b).
        congruence. }
      assert (Hshift : forall n, occursAt sub (String c s) (S n) <-> occursAt sub s n).
      { intros n; split; intros (a & b & Hab & Hn).
        - destruct a as [|c' a]; [discriminate|]. simpl in Hab, Hn.
          injection Hab as -> ->. exists a, b; split; [reflexivity | lia].
        - exists (String c a), b; simpl; split; [now rewrite Hab | now rewrite Hn]. }
      destruct (IH (i + 1)) as [[Hm Hno] | (n & Hn & Hocc & Hfirst)].
      * left; split; [assumption|]. intros [|n]; [assumption|].
        rewrite Hshift; apply Hno.
      * right; exists (S n). split; [rewrite Hn; lia|].
        split; [now apply Hshift|].
        intros [|m] Hm; [assumption|]. rewrite Hshift. apply Hfirst; lia.
Qed.

(** The slice bounds of [parseSocketFromName] are in range: when the
    delimiter is found at [offset], [offset + len(sub) <= len(s)]. *)
Lemma Index_in_range (s sub : string) :
  strings.Index s sub <> -1 ->
  0 <= strings.Index s sub /\ strings.Index s sub + len sub <= len s.
Proof.
  unfold strings.Index.
  destruct (indexFrom_spec sub s 0) as [[Hm _] | (n & Hn & (a & b & Hab & Hlen) & _)].
  - congruence.
  - intros _. rewrite Hn. unfold len. subst s.
    rewrite !length_app. lia.
Qed.

(** [strings.Index] finds the split that [firstSplit] describes. *)
Lemma Index_firstSplit (name l r : string) :
  firstSplit name l r ->
  strings.Index name mimeDelimiter = len l /\
  sliceTo name (len l) = l /\
  sliceFrom name (len l + len mimeDelimiter) = r.
Proof.
  intros [Hname Hfirst]. unfold strings.Index.
  assert (Hocc : occursAt mimeDelimiter name (String.length l))
    by (now exists l, r).
  split.
  - destruct (indexFrom_spec mimeDelimiter name 0)
      as [[_ Hno] | (n & Hn & Hn_occ & Hn_first)].
    + now destruct (Hno _ Hocc).
    + rewrite Hn. unfold len.
      destruct (Nat.lt_trichotomy n (String.length l)) as [Hlt | [Heq | Hgt]].
      * now destruct (Hfirst _ Hlt).
      * now rewrite Heq.
      * now destruct (Hn_first _ Hgt).
  - unfold sliceTo, sliceFrom, len. split.
    + rewrite Nat2Z.id, Hname. apply takeBytes_app.
    + rewrite <- Nat2Z.inj_add, Nat2Z.id, <- length_app, Hname.
      rewrite <- append_assoc. apply dropBytes_app.
Qed.

(** Every specifier in socket format has such a split. *)
Lemma isSocketFormat_firstSplit (name : string) :
  isSocketFormat name = true -> exists l r, firstSplit name l r.
Proof.
  unfold isSocketFormat, strings.Contains, strings.Index. intros H.
  apply Z.leb_le in H.
  destruct (indexFrom_spec mimeDelimiter name 0)
    as [[Hm _] | (n & _ & (a & b & Hab & Hlen) & Hn_first)].
  - lia.
  - exists a, b. split; [assumption|]. now rewrite Hlen.
Qed.

Lemma Contains_spec (s sub : string) :
  strings.Contains s sub = true <-> exists n, occursAt sub s n.
Proof.
  unfold strings.Contains, strings.Index.
  destruct (indexFrom_spec sub s 0) as [[Hm Hno] | (n & Hn & Hocc & _)].
  - rewrite Hm. split; [discriminate | intros [n Hn]; now destruct (Hno n)].
  - rewrite Hn. split; [intros _; now exists n | intros _; apply Z.leb_le; lia].
Qed.

Lemma len_nonneg (s : string) : 0 <= len s.
Proof. unfold len; lia. Qed.

Lemma len_zero (s : string) : len s = 0 <-> s = "".
Proof.
  unfold len; destruct s; simpl; split; try reflexivity; try discriminate; lia.
Qed.

(** ** The specifier parser *)

(** The parser's three checks, in the order the code makes them, once the
    split is known. *)
Lemma parseSocketFromName_split (name l r : string) :
  firstSplit name l r ->
  parseSocketFromName name =
    if negb (String.eqb l "data") && negb (String.eqb l "h264")
       && negb (String.eqb l "vp8") && negb (String.eqb l "opus")
    then inl (Errorf ("unsupported mime type: " ++ l))
    else if len r =? 0
         then inl (Errorf ("address cannot be empty. input was: " ++ name))
         else if negb (strings.Contains r ":")
              then inr (l, "unix", r) else inr (l, "tcp", r).
Proof.
  intros H. apply Index_firstSplit in H as (Hi & Hl & Hr).
  unfold parseSocketFromName. rewrite Hi, Hl, Hr.
  destruct (len l =? -1) eqn:E; [|reflexivity].
  apply Z.eqb_eq in E. pose proof (len_nonneg l). lia.
Qed.

Lemma mimeKeys_test (l : string) :
  negb (String.eqb l "data") && negb (String.eqb l "h264")
  && negb (String.eqb l "vp8") && negb (String.eqb l "opus") = false
  <-> In l mimeKeys.
Proof.
  unfold mimeKeys; simpl.
  destruct (String.eqb_spec l "data"), (String.eqb_spec l "h264"),
    (String.eqb_spec l "vp8"), (String.eqb_spec l "opus"); simpl;
    intuition congruence.
Qed.

(** A successful parse returns one of the four keys. *)
Lemma parseSocketFromName_key (name k s a : string) :
  parseSocketFromName name = inr (k, s, a) -> In k mimeKeys.
Proof.
  unfold parseSocketFromName.
  destruct (_ =? -1); [discriminate|].
  destruct (negb _ && _ && _ && _) eqn:E; [discriminate|].
  apply mimeKeys_test in E.
  destruct (len _ =? 0); [discriminate|].
  destruct (negb _); intros [= <- _ _]; assumption.
Qed.

(** C7, as amended: for a specifier that contains the delimiter, with [l] the
    text left of its first occurrence and [r] the text right of it, parsing
    fails with the unsupported-mime-type error when [l] is not one of data,
    h264, vp8, opus; and when [l] is one of them and [r] is empty, parsing
    fails with the empty-address error. *)
Theorem parseSocketFromName_errors (name l r : string) :
  firstSplit name l r ->
  (~ In l mimeKeys ->
   parseSocketFromName name = inl (Errorf ("unsupported mime type: " ++ l))) /\
  (In l mimeKeys -> r = "" ->
   parseSocketFromName name =
     inl (Errorf ("address cannot be empty. input was: " ++ name))).
Proof.
  intros H. rewrite (parseSocketFromName_split _ _ _ H).
  destruct (negb _ && _ && _ && _) eqn:E.
  - split; [reflexivity|]. intros Hin.
    apply mimeKeys_test in Hin. congruence.
  - apply mimeKeys_test in E. split; [intros Hn; now destruct Hn|].
    intros _ ->. reflexivity.
Qed.

(** C8: for every successfully parsed socket specifier, the transport is
    ["tcp"] exactly when the address contains [":"], and ["unix"] otherwise;
    with any accepted key, the address 127.0.0.1:1234 gives tcp and
    /tmp/x.sock gives unix. *)
Theorem parseSocketFromName_transport :
  (forall name k s a,
      parseSocketFromName name = inr (k, s, a) ->
      (s = "tcp" <-> exists n, occursAt ":" a n) /\
      (s = "unix" <-> ~ exists n, occursAt ":" a n)) /\
  (forall k, In k mimeKeys ->
      parseSocketFromName (k ++ "://127.0.0.1:1234")
        = inr (k, "tcp", "127.0.0.1:1234") /\
      parseSocketFromName (k ++ ":///tmp/x.sock")
        = inr (k, "unix", "/tmp/x.sock")).
Proof.
  split.
  - intros name k s a. unfold parseSocketFromName.
    destruct (_ =? -1); [discriminate|].
    destruct (negb _ && _ && _ && _); [discriminate|].
    destruct (len _ =? 0); [discriminate|].
    destruct (strings.Contains _ ":") eqn:E; simpl; intros [= <- <- <-];
      rewrite <- Contains_spec, E; split; split;
      intros; try reflexivity; try discriminate; congruence.
  - intros k Hk. simpl in Hk.
    destruct Hk as [<- | [<- | [<- | [<- | []]]]]; split; reflexivity.
Qed.

(** C10: every key that the parser accepts is mapped by the dispatch of
    [publishSocket] to its mime type (data to data/byte, h264 to video/H264,
    vp8 to video/VP8, opus to audio/opus); the [default] branch is never
    taken. *)
Theorem publishSocket_mime_total (name k s a : string) :
  parseSocketFromName name = inr (k, s, a) ->
  publishSocket_mime k <> None /\
  (k = "data" /\ publishSocket_mime k = Some MimeTypeDataByte \/
   k = "h264" /\ publishSocket_mime k = Some webrtc.MimeTypeH264 \/
   k = "vp8" /\ publishSocket_mime k = Some webrtc.MimeTypeVP8 \/
   k = "opus" /\ publishSocket_mime k = Some webrtc.MimeTypeOpus).
Proof.
  intros H. apply parseSocketFromName_key in H. simpl in H.
  destruct H as [<- | [<- | [<- | [<- | []]]]];
    (split; [discriminate|]); auto 10.
Qed.

(** A split at the offset [strings.Index] returns is the first one; this
    decides [firstSplit] on concrete strings. *)
Lemma firstSplit_of_Index (name l r : string) :
  name = l ++ mimeDelimiter ++ r ->
  strings.Index name mimeDelimiter = len l ->
  firstSplit name l r.
Proof.
  intros Hname Hi. split; [assumption|].
  unfold strings.Index in Hi.
  destruct (indexFrom_spec mimeDelimiter name 0) as [[Hm _] | (n & Hn & _ & Hfirst)].
  - pose proof (len_nonneg l). lia.
  - intros m Hm. apply Hfirst. unfold len in Hi. lia.
Qed.

Lemma parseSocketFromName_errors_witness :
  (firstSplit "mp3://x" "mp3" "x" /\
   parseSocketFromName "mp3://x" = inl (Errorf "unsupported mime type: mp3")) /\
  (firstSplit "data://" "data" "" /\
   parseSocketFromName "data://"
     = inl (Errorf "address cannot be empty. input was: data://")).
Proof.
  assert (H1 : firstSplit "mp3://x" "mp3" "x")
    by (apply firstSplit_of_Index; reflexivity).
  assert (H2 : firstSplit "data://" "data" "")
    by (apply firstSplit_of_Index; reflexivity).
  split; split; try assumption.
  - apply (proj1 (parseSocketFromName_errors "mp3://x" "mp3" "x" H1)).
    simpl. intros [H | [H | [H | [H | []]]]]; discriminate H.
  - apply (proj2 (parseSocketFromName_errors "data://" "data" "" H2)).
    + simpl; auto.
    + reflexivity.
Defined.

(** C7 as stated fails when the key is bad and the address is empty too: the
    key is checked first, so the specifier foo:// is refused for its mime
    type and not for its address. *)
Lemma parseSocketFromName_bad_key_empty_address :
  firstSplit "foo://" "foo" "" /\
  parseSocketFromName "foo://" = inl (Errorf "unsupported mime type: foo") /\
  parseSocketFromName "foo://"
    <> inl (Errorf "address cannot be empty. input was: foo://").
Proof.
  split; [apply firstSplit_of_Index; reflexivity|].
  split; [reflexivity | discriminate].
Qed.

Lemma parseSocketFromName_transport_witness :
  parseSocketFromName "h264://127.0.0.1:1234"
    = inr ("h264", "tcp", "127.0.0.1:1234") /\
  ("tcp" = "tcp" <-> exists n, occursAt ":" "127.0.0.1:1234" n) /\
  parseSocketFromName "opus:///tmp/x.sock" = inr ("opus", "unix", "/tmp/x.sock").
Proof.
  assert (H : parseSocketFromName "h264://127.0.0.1:1234"
              = inr ("h264", "tcp", "127.0.0.1:1234")) by reflexivity.
  split; [exact H|]. split.
  - exact (proj1 (proj1 parseSocketFromName_transport _ _ _ _ H)).
  - apply (proj2 parseSocketFromName_transport "opus"). simpl; auto.
Defined.

Lemma publishSocket_mime_total_witness :
  parseSocketFromName "vp8://cam.sock" = inr ("vp8", "unix", "cam.sock") /\
  publishSocket_mime "vp8" <> None.
Proof.
  split; [reflexivity|].
  apply (proj1 (publishSocket_mime_total "vp8://cam.sock" "vp8" "unix" "cam.sock"
                  eq_refl)).
Defined.

(** ** Frame pacing *)

Lemma nonzero_spec (fps : Q) : nonzero fps = true <-> ~ fps == 0.
Proof.
  unfold nonzero. rewrite negb_true_iff.
  destruct (Qeq_bool fps 0) eqn:E.
  - apply Qeq_bool_eq in E. split; [discriminate | tauto].
  - split; [|reflexivity]. intros _ H. apply Qeq_eq_bool in H. congruence.
Qed.

(** A zero rate sets no frame duration, video or not. *)
Lemma setFrameRate_zero (video : bool) (fps : Q) opts :
  fps == 0 -> setFrameRate video fps opts = Some opts.
Proof.
  intros H. unfold setFrameRate, nonzero.
  rewrite (Qeq_eq_bool _ _ H). now destruct video.
Qed.

(** On a whole, nonzero rate the code computes what the specification asks
    for when the rate is positive: one second divided by the rate. *)
Lemma frameDuration_whole_rate (n : positive) :
  frameDuration (Zpos n # 1) = Some (time.Second / Zpos n) /\
  FramePacer_compute (Zpos n # 1) = Some (time.Second / Zpos n).
Proof.
  unfold frameDuration, time.div, time.Duration, FramePacer_compute. simpl Qnum; simpl Qden.
  rewrite Z.quot_1_r. split.
  - simpl (Zpos n =? 0). rewrite Z.quot_div_nonneg by (unfold time.Second; lia).
    reflexivity.
  - replace (Qeq_bool (Zpos n # 1) 0) with false by reflexivity.
    reflexivity.
Qed.

(** The division sees the whole part of the rate only: every rate from [n]
    up to, but not including, [n + 1] gets the frame duration of [n]. *)
Lemma frameDuration_whole_part (fps : Q) (n : Z) :
  0 < n -> (inject_Z n <= fps)%Q -> (fps < inject_Z (n + 1))%Q ->
  frameDuration fps = Some (time.Second / n).
Proof.
  destruct fps as [num den]. unfold Qle, Qlt, inject_Z. simpl Qnum; simpl Qden.
  intros Hn Hlo Hhi.
  assert (Hq : Z.quot num (Zpos den) = n).
  { rewrite Z.quot_div_nonneg by nia.
    symmetry. apply (Z.div_unique num (Zpos den) n (num - n * Zpos den)); lia. }
  unfold frameDuration, time.div, time.Duration. simpl Qnum; simpl Qden.
  rewrite Hq. destruct (Z.eqb_spec n 0) as [|_]; [lia|].
  rewrite Z.quot_div_nonneg by (unfold time.Second; lia). reflexivity.
Qed.

(** A rate of 25 gives 40 ms. *)
Lemma setFrameRate_25 opts :
  setFrameRate true (25 # 1) opts
  = Some (opts ++ [ReaderTrackWithFrameDuration (40 * time.Millisecond)])%list.
Proof. reflexivity. Qed.

(** C5 fails on the code for fractional rates: the rate is converted to a
    whole number before the division.  At 23.98 frames per second (the rate
    of the README's example; by [frameDuration_whole_part] every rate from 23
    up to 24 behaves the same) the code sets 1/23 s, 43478260 ns, where
    1/rate is 41701417 ns; at half a frame per second the divisor is 0 and
    the division panics. *)
Theorem frameDuration_fractional_rate :
  setFrameRate true (2398 # 100) []
    = Some [ReaderTrackWithFrameDuration 43478260] /\
  FramePacer_compute (2398 # 100) = Some 41701417 /\
  nonzero (1 # 2) = true /\
  setFrameRate true (1 # 2) [] = None /\
  FramePacer_compute (1 # 2) = Some (2 * time.Second).
Proof. repeat split; reflexivity. Qed.

(** ** Traces *)

(** The call added nothing to the trace. *)
Ltac nothing_added :=
  exists []; rewrite app_nil_r;
  first [ split; [first [reflexivity | assumption] | intros ? ? []]
        | split; [first [reflexivity | assumption] | constructor] ].

Lemma trace_emit (e : event) (w : World) : trace (emit e w) = (trace w ++ [e])%list.
Proof. reflexivity. Qed.

Lemma publishedTracks_app (s t : list event) :
  publishedTracks (s ++ t) = (publishedTracks s ++ publishedTracks t)%list.
Proof.
  induction s as [|e s IH]; [reflexivity|].
  destruct e; simpl; rewrite IH; reflexivity.
Qed.

Lemma unpublishCalls_app (s t : list event) :
  unpublishCalls (s ++ t) = (unpublishCalls s ++ unpublishCalls t)%list.
Proof.
  induction s as [|e s IH]; [reflexivity|].
  destruct e; simpl; rewrite IH; reflexivity.
Qed.

Lemma dataMessages_app (s t : list event) :
  dataMessages (s ++ t) = (dataMessages s ++ dataMessages t)%list.
Proof.
  induction s as [|e s IH]; [reflexivity|].
  destruct e; simpl; rewrite IH; reflexivity.
Qed.

Lemma dataMessages_idle (n : nat) : forall w,
  vars (idle n w) = vars w /\ dataMessages (trace (idle n w)) = dataMessages (trace w).
Proof.
  induction n as [|n IH]; intros w; [split; reflexivity|].
  cbn [idle]. destruct (IH (emit (Sleep (10 * time.Millisecond)) w)) as [Hv Hd].
  rewrite Hv, Hd. split; [reflexivity|].
  rewrite trace_emit, dataMessages_app. apply app_nil_r.
Qed.

(** ** The data streaming loop *)

(** One [ReadFrom] gathers everything the reader delivers up to its next
    end-of-stream signal. *)
Lemma ReadFrom_gathers (chunks : list string) : forall buf,
  bytes.ReadFrom buf (map (fun chunk => (chunk, None)) chunks)
  = (buf ++ String.concat "" chunks, None, []).
Proof.
  induction chunks as [|chunk chunks IH]; intros buf.
  - simpl. now rewrite append_nil_r.
  - cbn [map bytes.ReadFrom]. rewrite IH.
    destruct chunks as [|chunk' chunks].
    + simpl. now rewrite append_nil_r.
    + cbn [String.concat]. simpl ("" ++ _). now rewrite append_assoc.
Qed.

Section DataLoop.

Variable c : Collaborators.
Variable mime : string.

(** One iteration, by what [ReadFrom] returned. *)
Lemma dataLoop_read_error fuel rd w data e rd' :
  bytes.ReadFrom "" rd = (data, Some e, rd') ->
  dataLoop c mime (S fuel) rd w = (w, rd', Returns (Some e)).
Proof. intros H; simpl; rewrite H; reflexivity. Qed.

Lemma dataLoop_sentinel fuel rd w rd' :
  bytes.ReadFrom "" rd = ("EXIT", None, rd') ->
  dataLoop c mime (S fuel) rd w
  = (w, rd', Returns (Some (Errorf ("finished writing " ++ mime ++ " stream")))).
Proof. intros H; simpl; rewrite H; reflexivity. Qed.

Lemma dataLoop_no_bytes fuel rd w rd' :
  bytes.ReadFrom "" rd = ("", None, rd') ->
  dataLoop c mime (S fuel) rd w
  = dataLoop c mime fuel rd' (emit (Sleep (10 * time.Millisecond)) w).
Proof. intros H; simpl; rewrite H; reflexivity. Qed.

Lemma dataLoop_forward fuel rd w data rd' :
  bytes.ReadFrom "" rd = (data, None, rd') ->
  data <> "" -> data <> "EXIT" ->
  dataLoop c mime (S fuel) rd w
  = let w1 := emit (Printf (data ++ newline)) w in
    let w2 := emit (PublishData data DataPacket_RELIABLE) w1 in
    match LocalParticipant_PublishData c (trace w1) data with
    | Some e => (w2, rd', Returns (Some e))
    | None => dataLoop c mime fuel rd' (emit (Sleep (10 * time.Millisecond)) w2)
    end.
Proof.
  intros H Hne Hexit. simpl. rewrite H.
  destruct (0 <? len data) eqn:E.
  - destruct (String.eqb_spec data "EXIT"); [contradiction | reflexivity].
  - apply Z.ltb_ge in E. pose proof (len_nonneg data).
    assert (len data = 0) as Hz by lia. apply len_zero in Hz. contradiction.
Qed.

(** Whatever the source and however long the loop runs, it only extends the
    trace, and only with prints, sleeps of 10 ms and reliable messages that
    are neither empty nor the sentinel. *)
Lemma dataLoop_trace fuel : forall rd w w' rd' o,
  dataLoop c mime fuel rd w = (w', rd', o) ->
  vars w' = vars w /\
  exists added, trace w' = (trace w ++ added)%list /\ Forall dataLoopEvent added.
Proof.
  induction fuel as [|fuel IH]; intros rd w w' rd' o H.
  - injection H as <- _ _. split; [reflexivity|].
    nothing_added.
  - destruct (bytes.ReadFrom "" rd) as [[data [e|]] rd1] eqn:R.
    + rewrite (dataLoop_read_error _ _ _ _ _ _ R) in H. injection H as <- _ _.
      split; [reflexivity|]. nothing_added.
    + destruct (String.eqb_spec data "") as [-> | Hne].
      * rewrite (dataLoop_no_bytes _ _ _ _ R) in H.
        apply IH in H as (Hv & added & Ht & Hall). split; [exact Hv|].
        exists (Sleep (10 * time.Millisecond) :: added).
        rewrite Ht, trace_emit, <- app_assoc. split; [reflexivity|].
        constructor; [reflexivity | assumption].
      * destruct (String.eqb_spec data "EXIT") as [-> | Hexit].
        -- rewrite (dataLoop_sentinel _ _ _ _ R) in H. injection H as <- _ _.
           split; [reflexivity|]. nothing_added.
        -- rewrite (dataLoop_forward _ _ _ _ _ R Hne Hexit) in H. cbv zeta in H.
           destruct (LocalParticipant_PublishData c _ data) as [e|].
           ++ injection H as <- _ _. split; [reflexivity|].
              exists [Printf (data ++ newline); PublishData data DataPacket_RELIABLE].
              rewrite !trace_emit, <- app_assoc. split; [reflexivity|].
              repeat constructor; assumption.
           ++ apply IH in H as (Hv & added & Ht & Hall). split; [exact Hv|].
              exists (Printf (data ++ newline)
                        :: PublishData data DataPacket_RELIABLE
                        :: Sleep (10 * time.Millisecond) :: added).
              rewrite Ht, !trace_emit, <- !app_assoc. split; [reflexivity|].
              repeat constructor; assumption.
Qed.

(** On a source that has ended the loop never stops: each read returns no
    bytes and no error, and the loop sleeps and reads again. *)
Lemma dataLoop_ended_source fuel : forall w,
  dataLoop c mime fuel [] w = (idle fuel w, [], StillLooping).
Proof.
  induction fuel as [|fuel IH]; intros w; [reflexivity|].
  rewrite (dataLoop_no_bytes fuel [] w []) by reflexivity. apply IH.
Qed.

End DataLoop.

Lemma publishReader_data c fuel rd fps w :
  publishReader c fuel rd MimeTypeDataByte fps w
  = dataLoop c MimeTypeDataByte fuel rd (snd (declarePub w)).
Proof. reflexivity. Qed.




(** [ReadFrom] never reports [io.EOF]. *)
Lemma ReadFrom_not_EOF (rd : Reader) : forall buf data e rd',
  bytes.ReadFrom buf rd = (data, Some e, rd') -> e <> io_EOF.
Proof.
  induction rd as [|[chunk [e0|]] rd IH]; intros buf data e rd' H; simpl in H.
  - discriminate.
  - intros ->. destruct e0; discriminate H.
  - eapply IH; eassumption.
Qed.

(** C4, as amended: when a read of the loop fails with a read error (never
    [io.EOF], which the read does not report), the loop stops at once,
    forwarding nothing more, and [publishReader] returns that error to its
    caller, as the failure of the publish. *)
Theorem publishReader_stops_on_read_error c fuel fps rd w data e rd' :
  bytes.ReadFrom "" rd = (data, Some e, rd') ->
  e <> io_EOF /\
  publishReader c (S fuel) rd MimeTypeDataByte fps w
  = (snd (declarePub w), rd', Returns (Some e)) /\
  trace (snd (declarePub w)) = trace w.
Proof.
  intros H. split; [eapply ReadFrom_not_EOF; eassumption|].
  split; [|reflexivity].
  rewrite publishReader_data. simpl. rewrite H. reflexivity.
Qed.

Lemma publishReader_stops_on_read_error_witness :
  bytes.ReadFrom "" [("par", None); ("", Some (ExternalError "connection reset"))]
  = ("par", Some (ExternalError "connection reset"), []) /\
  publishReader (session false []) 1
    [("par", None); ("", Some (ExternalError "connection reset"))]
    MimeTypeDataByte 0 emptyWorld
  = ({| vars := [None]; trace := [] |}, [],
     Returns (Some (ExternalError "connection reset"))).
Proof.
  split; [reflexivity|].
  apply (publishReader_stops_on_read_error (session false []) 0 0
           [("par", None); ("", Some (ExternalError "connection reset"))]
           emptyWorld "par" (ExternalError "connection reset") []).
  reflexivity.
Defined.

(** C4 as stated fails twice.  On a source that has ended (every read
    returns end-of-stream) the loop is still iterating after any number of
    rounds; and a read error comes back as the error of [handlePublish],
    which ends the run of [joinRoom] as a failure. *)
Lemma dataLoop_eof_spins_read_error_fails :
  (forall fuel,
      snd (publishReader (session false []) fuel [] MimeTypeDataByte 0 emptyWorld)
      = StillLooping) /\
  joinRoom_publish
    (session false [("", Some (ExternalError "connection reset"))]) 1
    ["data://feed.sock"; "clip.ivf"] 0 emptyWorld
  = ({| vars := [None]; trace := [Dial "unix" "feed.sock"] |},
     Returns (Some (ExternalError "connection reset"))).
Proof.
  split; [|reflexivity].
  intros fuel. rewrite publishReader_data, dataLoop_ended_source. reflexivity.
Qed.

(** C6, as amended: a chunk that is exactly EXIT is never forwarded as a
    message, and upon reading it the loop stops by returning the error
    "finished writing <mime> stream" to its caller. *)
Theorem dataLoop_EXIT c mime :
  (forall fuel rd w rd',
      bytes.ReadFrom "" rd = ("EXIT", None, rd') ->
      dataLoop c mime (S fuel) rd w
      = (w, rd', Returns (Some (Errorf ("finished writing " ++ mime ++ " stream"))))) /\
  (forall fuel rd w w' rd' o,
      dataLoop c mime fuel rd w = (w', rd', o) ->
      exists added,
        trace w' = (trace w ++ added)%list /\
        forall kind, ~ In ("EXIT", kind) (dataMessages added)).
Proof.
  split.
  - intros fuel rd w rd' H. simpl. rewrite H. reflexivity.
  - intros fuel rd w w' rd' o H.
    apply dataLoop_trace in H as (_ & added & Ht & Hall).
    exists added. split; [assumption|]. intros kind. clear Ht.
    induction Hall as [|e added He _ IH]; [intros []|].
    destruct e; simpl; try assumption.
    intros [Heq | Hin]; [|now apply IH].
    injection Heq as -> _. now destruct He.
Qed.

Lemma dataLoop_EXIT_witness :
  bytes.ReadFrom "" [("EX", None); ("IT", Some io_EOF); ("more", None)]
  = ("EXIT", None, [("more", None)]) /\
  dataLoop (session false []) MimeTypeDataByte 1
    [("EX", None); ("IT", Some io_EOF); ("more", None)] emptyWorld
  = (emptyWorld, [("more", None)],
     Returns (Some (Errorf "finished writing data/byte stream"))).
Proof.
  split; [reflexivity|].
  apply (proj1 (dataLoop_EXIT (session false []) MimeTypeDataByte) 0%nat
           [("EX", None); ("IT", Some io_EOF); ("more", None)] emptyWorld
           [("more", None)]).
  reflexivity.
Defined.

(** C6 as stated fails on how the loop stops: the sentinel makes
    [publishReader] return a non-nil error, which [joinRoom] returns as the
    failure of the run, leaving the next specifier unpublished. *)
Lemma dataLoop_EXIT_is_an_error :
  snd (publishReader (session false []) 1 [("EXIT", Some io_EOF)]
         MimeTypeDataByte 0 emptyWorld)
  = Returns (Some (Errorf "finished writing data/byte stream")) /\
  snd (publishReader (session false []) 1 [("EXIT", Some io_EOF)]
         MimeTypeDataByte 0 emptyWorld)
  <> Returns None /\
  joinRoom_publish (session false [("EXIT", Some io_EOF)]) 1
    ["data://ctl.sock"; "clip.ivf"] 0 emptyWorld
  = ({| vars := [None]; trace := [Dial "unix" "ctl.sock"] |},
     Returns (Some (Errorf "finished writing data/byte stream"))).
Proof. split; [reflexivity|]. split; [discriminate | reflexivity]. Qed.

(** ** The publish loop of [joinRoom] *)

Lemma joinRoom_publish_app c fuel fps (pre rest : list string) : forall w,
  joinRoom_publish c fuel (pre ++ rest) fps w
  = match joinRoom_publish c fuel pre fps w with
    | (w1, Returns None) => joinRoom_publish c fuel rest fps w1
    | stopped => stopped
    end.
Proof.
  induction pre as [|p pre IH]; intros w; simpl; [reflexivity|].
  destruct (handlePublish c fuel p fps w) as [w1 [[e|]|msg|]]; try reflexivity.
  apply IH.
Qed.

(** C2, as amended: the specifiers are handled one after another, in the
    order given; a failure while handling one of them ends the run with that
    failure: the specifiers before it have been handled as they are without
    it, and the specifiers after it are neither resolved nor published. *)
Theorem joinRoom_publish_stops_at_failure c fuel fps pre p post w w1 w2 e :
  joinRoom_publish c fuel pre fps w = (w1, Returns None) ->
  handlePublish c fuel p fps w1 = (w2, Returns (Some e)) ->
  joinRoom_publish c fuel (pre ++ p :: post) fps w = (w2, Returns (Some e)).
Proof.
  intros Hpre Hp. rewrite joinRoom_publish_app, Hpre. simpl. now rewrite Hp.
Qed.

Lemma joinRoom_publish_stops_at_failure_witness :
  joinRoom_publish (session false []) 1 ["intro.ivf"] (25 # 1) emptyWorld
  = ({| vars := [Some TR_1];
        trace := [PublishTrack
                    {| trackSource := FileSource "intro.ivf";
                       trackOpts :=
                         [ReaderTrackWithOnWriteComplete
                            {| hookText := "finished writing file intro.ivf" ++ newline;
                               hookPub := 0 |};
                          ReaderTrackWithFrameDuration (40 * time.Millisecond)] |}
                    "intro.ivf"] |},
     Returns None) /\
  joinRoom_publish (session false []) 1 ["intro.ivf"; "mp3://x"; "clip.ivf"]
    (25 # 1) emptyWorld
  = (fst (joinRoom_publish (session false []) 1 ["intro.ivf"] (25 # 1) emptyWorld),
     Returns (Some (Errorf "unsupported mime type: mp3"))).
Proof.
  split; [reflexivity|].
  eapply (joinRoom_publish_stops_at_failure (session false []) 1 (25 # 1)
            ["intro.ivf"] "mp3://x" ["clip.ivf"] emptyWorld); reflexivity.
Defined.

(** C2 as stated fails: a bad specifier, or a socket that cannot be dialled,
    ends the run, and the file after it, which is published when it is given
    alone, is not published. *)
Lemma joinRoom_publish_failure_skips_the_rest :
  joinRoom_publish (session false []) 1 ["mp3://x"; "clip.ivf"] (25 # 1) emptyWorld
  = (emptyWorld, Returns (Some (Errorf "unsupported mime type: mp3"))) /\
  joinRoom_publish (session false []) 1 ["h264://nohost:1"; "clip.ivf"] (25 # 1)
    emptyWorld
  = ({| vars := []; trace := [Dial "tcp" "nohost:1"] |},
     Returns (Some (ExternalError "dial tcp: connection refused"))) /\
  List.length
    (publishedTracks
       (trace (fst (joinRoom_publish (session false []) 1 ["clip.ivf"] (25 # 1)
                      emptyWorld)))) = 1%nat.
Proof. repeat split; reflexivity. Qed.

(** ** Tracks: frame duration and the completion hook *)

Lemma nth_error_snoc {A : Type} (l : list A) (v : A) :
  nth_error (l ++ [v]) (List.length l) = Some v.
Proof. induction l; simpl; auto. Qed.

Lemma setNth_snoc {A : Type} (l : list A) (x v : A) :
  setNth (List.length l) v (l ++ [x]) = (l ++ [v])%list.
Proof. induction l; simpl; congruence. Qed.

(** What the block that sets the frame rate leaves in the options. *)
Lemma setFrameRate_opts video fps f opts :
  setFrameRate video fps [ReaderTrackWithOnWriteComplete f] = Some opts ->
  hookOf opts = Some f /\
  (forall d, frameDurationOf opts = Some d -> video = true /\ nonzero fps = true).
Proof.
  unfold setFrameRate.
  destruct video; [destruct (nonzero fps); [destruct (frameDuration fps)|]|];
    intros [= <-]; simpl; split; try reflexivity; try discriminate; auto.
Qed.

(** The effect of one [PublishTrack] call. *)
Lemma callPublishTrack_effect c track name w :
  let res := LocalParticipant_PublishTrack c track in
  snd (callPublishTrack c track name w) = res /\
  vars (fst (callPublishTrack c track name w)) = vars w /\
  trace (fst (callPublishTrack c track name w))
  = (trace w ++ PublishTrack track name ::
       (if exhaustedDuringCall res then
          match hookOf (trackOpts track) with
          | Some f =>
              Stdout (hookText f) ::
                match readPub (hookPub f) w with
                | Some p => [UnpublishTrack (SID p)]
                | None => []
                end
          | None => []
          end
        else []))%list.
Proof.
  unfold callPublishTrack. cbv zeta. simpl fst; simpl snd.
  split; [reflexivity|].
  destruct (exhaustedDuringCall _); [|split; reflexivity].
  unfold sourceExhausted. destruct (hookOf _) as [f|]; [|split; reflexivity].
  unfold runHook, readPub. simpl.
  destruct (nth_error (vars w) (hookPub f)) as [[p|]|]; simpl;
    rewrite <- ?app_assoc; split; reflexivity.
Qed.

(** What is common to the file path and the reader path once the options
    are set: the track is published, and the publication is assigned to the
    [pub] variable declared for it. *)
Lemma publish_then_assign c track name f w0 :
  hookOf (trackOpts track) = Some f ->
  hookPub f = List.length (vars w0) ->
  let w := snd (declarePub w0) in
  let res := LocalParticipant_PublishTrack c track in
  let w2 := assignPub (hookPub f) (resPub res) (fst (callPublishTrack c track name w)) in
  vars w2 = (vars w0 ++ [resPub res])%list /\
  trace w2 = (trace w0 ++ PublishTrack track name ::
                (if exhaustedDuringCall res then [Stdout (hookText f)] else []))%list.
Proof.
  intros Hhook Hpub. cbv zeta.
  destruct (callPublishTrack_effect c track name (snd (declarePub w0)))
    as (_ & Hv & Ht).
  unfold assignPub. cbn [vars trace]. rewrite Ht, Hv, Hhook, Hpub.
  unfold declarePub, readPub; simpl. rewrite setNth_snoc, nth_error_snoc.
  split; reflexivity.
Qed.

Lemma dataLoopEvent_no_track (added : list event) :
  Forall dataLoopEvent added -> publishedTracks added = [].
Proof.
  induction 1 as [|e added He _ IH]; [reflexivity|].
  destruct e; simpl in *; try assumption; contradiction.
Qed.

(** The two ways [publishFile] ends: before any call to the session (a panic
    of the division, or [NewLocalFileTrack] failing), or after
    [PublishTrack]. *)
Lemma publishFile_effect c filename fps w w' o :
  publishFile c filename fps w = (w', o) ->
  let f := {| hookText := "finished writing file " ++ filename ++ newline;
              hookPub := List.length (vars w) |} in
  let ext := filepath.Ext filename in
  (trace w' = trace w /\ o <> Returns None) \/
  exists opts,
    setFrameRate (String.eqb ext ".h264" || String.eqb ext ".ivf") fps
      [ReaderTrackWithOnWriteComplete f] = Some opts /\
    let track := {| trackSource := FileSource filename; trackOpts := opts |} in
    let res := LocalParticipant_PublishTrack c track in
    o = Returns (resErr res) /\
    vars w' = (vars w ++ [resPub res])%list /\
    trace w' = (trace w ++ PublishTrack track filename ::
                  (if exhaustedDuringCall res then [Stdout (hookText f)] else []))%list.
Proof.
  unfold publishFile, declarePub. cbv zeta.
  destruct (setFrameRate _ fps _) as [opts|] eqn:Hopts.
  - destruct (NewLocalFileTrack c filename) as [err|].
    + intros [= <- <-]. left. split; [reflexivity | discriminate].
    + rewrite (surjective_pairing (callPublishTrack _ _ _ _)).
      intros [= <- <-]. right. exists opts. split; [reflexivity|]. cbv zeta.
      split; [reflexivity|].
      apply setFrameRate_opts in Hopts as [Hhook _].
      exact (publish_then_assign c
               {| trackSource := FileSource filename; trackOpts := opts |}
               filename _ w Hhook eq_refl).
  - intros [= <- <-]. left. split; [reflexivity | discriminate].
Qed.

(** The same for [publishReader] on a mime type other than data/byte. *)
Lemma publishReader_track_effect c fuel rd mime fps w w' rd' o :
  mime <> MimeTypeDataByte ->
  publishReader c fuel rd mime fps w = (w', rd', o) ->
  let f := {| hookText := "finished writing " ++ mime ++ " stream" ++ newline;
              hookPub := List.length (vars w) |} in
  (trace w' = trace w /\ o <> Returns None) \/
  exists opts,
    setFrameRate (strings.EqualFold mime webrtc.MimeTypeVP8
                  || strings.EqualFold mime webrtc.MimeTypeH264) fps
      [ReaderTrackWithOnWriteComplete f] = Some opts /\
    let track := {| trackSource := ReaderSource rd mime; trackOpts := opts |} in
    let res := LocalParticipant_PublishTrack c track in
    o = Returns (resErr res) /\
    vars w' = (vars w ++ [resPub res])%list /\
    trace w' = (trace w ++ PublishTrack track "" ::
                  (if exhaustedDuringCall res then [Stdout (hookText f)] else []))%list.
Proof.
  intros Hmime. unfold publishReader, declarePub. cbv zeta.
  destruct (setFrameRate _ fps _) as [opts|] eqn:Hopts.
  - destruct (String.eqb_spec mime MimeTypeDataByte) as [|_]; [contradiction|].
    simpl negb. cbv iota.
    destruct (NewLocalReaderTrack c rd mime) as [err|].
    + intros [= <- _ <-]. left. split; [reflexivity | discriminate].
    + rewrite (surjective_pairing (callPublishTrack _ _ _ _)).
      intros [= <- _ <-]. right. exists opts. split; [reflexivity|]. cbv zeta.
      split; [reflexivity|].
      apply setFrameRate_opts in Hopts as [Hhook _].
      exact (publish_then_assign c
               {| trackSource := ReaderSource rd mime; trackOpts := opts |}
               "" _ w Hhook eq_refl).
  - intros [= <- _ <-]. left. split; [reflexivity | discriminate].
Qed.

(** What the hook does, by the time the source is exhausted, for a track
    published as the two lemmas above describe. *)
Lemma hook_after_publish c w w' track name f :
  hookOf (trackOpts track) = Some f ->
  hookPub f = List.length (vars w) ->
  vars w' = (vars w ++ [resPub (LocalParticipant_PublishTrack c track)])%list ->
  trace w' = (trace w ++ PublishTrack track name ::
                (if exhaustedDuringCall (LocalParticipant_PublishTrack c track)
                 then [Stdout (hookText f)] else []))%list ->
  forall track1 p,
    publishedTracks (trace w') = (publishedTracks (trace w) ++ [track1])%list ->
    resPub (LocalParticipant_PublishTrack c track1) = Some p ->
    unpublishCalls (trace w') = unpublishCalls (trace w) /\
    if exhaustedDuringCall (LocalParticipant_PublishTrack c track1)
    then exists g name1,
        hookOf (trackOpts track1) = Some g /\
        trace w' = (trace w ++ [PublishTrack track1 name1; Stdout (hookText g)])%list
    else unpublishCalls (trace (sourceExhausted track1 w'))
         = (unpublishCalls (trace w) ++ [SID p])%list.
Proof.
  intros Hhook Hpub Hv Ht track1 p Htracks Hp.
  assert (track1 = track) as ->.
  { rewrite Ht, publishedTracks_app in Htracks.
    apply app_inv_head in Htracks.
    destruct (exhaustedDuringCall _); simpl in Htracks; congruence. }
  split.
  - rewrite Ht, unpublishCalls_app.
    destruct (exhaustedDuringCall _); simpl; now rewrite app_nil_r.
  - destruct (exhaustedDuringCall _).
    + now exists f, name.
    + unfold sourceExhausted. rewrite Hhook.
      unfold runHook, readPub. simpl vars.
      rewrite Hv, Hpub, nth_error_snoc, Hp. simpl.
      rewrite Ht, !unpublishCalls_app. simpl. now rewrite !app_nil_r.
Qed.

(** C3, as amended: for every published track (file or non-data socket), the
    completion hook attempts exactly one unpublish, of the publication
    handle, when the source is exhausted after the publish call has
    returned and the handle is assigned; when the source is exhausted while
    the publish call is in progress, the hook runs before the handle is
    assigned and attempts no unpublish. *)
Theorem completion_hook_unpublish c w w' track p :
  (exists filename fps, publishFile c filename fps w = (w', Returns None)) \/
  (exists fuel rd rd' mime fps,
      mime <> MimeTypeDataByte /\
      publishReader c fuel rd mime fps w = (w', rd', Returns None)) ->
  publishedTracks (trace w') = (publishedTracks (trace w) ++ [track])%list ->
  resPub (LocalParticipant_PublishTrack c track) = Some p ->
  unpublishCalls (trace w') = unpublishCalls (trace w) /\
  if exhaustedDuringCall (LocalParticipant_PublishTrack c track)
  then exists g name,
      hookOf (trackOpts track) = Some g /\
      trace w' = (trace w ++ [PublishTrack track name; Stdout (hookText g)])%list
  else unpublishCalls (trace (sourceExhausted track w'))
       = (unpublishCalls (trace w) ++ [SID p])%list.
Proof.
  intros [(filename & fps & H) | (fuel & rd & rd' & mime & fps & Hmime & H)].
  - apply publishFile_effect in H as [[_ Ho] | (opts & Hopts & _ & Hv & Ht)];
      [now destruct Ho|].
    apply setFrameRate_opts in Hopts as [Hhook _].
    exact (hook_after_publish c w w'
             {| trackSource := FileSource filename; trackOpts := opts |}
             filename _ Hhook eq_refl Hv Ht track p).
  - apply publishReader_track_effect in H as [[_ Ho] | (opts & Hopts & _ & Hv & Ht)];
      [now destruct Ho | | exact Hmime].
    apply setFrameRate_opts in Hopts as [Hhook _].
    exact (hook_after_publish c w w'
             {| trackSource := ReaderSource rd mime; trackOpts := opts |}
             "" _ Hhook eq_refl Hv Ht track p).
Qed.

Lemma completion_hook_unpublish_witness :
  publishFile (session false []) "clip.ivf" (25 # 1) emptyWorld
  = (clipPublished, Returns None) /\
  unpublishCalls (trace clipPublished) = [] /\
  unpublishCalls (trace (sourceExhausted clipTrack clipPublished)) = ["TR_1"].
Proof.
  split; [reflexivity|].
  exact (completion_hook_unpublish (session false []) emptyWorld clipPublished
           clipTrack TR_1
           (or_introl (ex_intro _ "clip.ivf" (ex_intro _ (25 # 1) eq_refl)))
           eq_refl eq_refl).
Defined.

(** C3 as stated fails when the source is exhausted while [PublishTrack] is
    in progress: the track is published and its handle TR_1 ends up in
    [pub], the hook has run (its line is printed), and no unpublish was
    attempted. *)
Lemma completion_hook_before_handle :
  publishFile (session true []) "clip.ivf" (25 # 1) emptyWorld
  = ({| vars := [Some TR_1];
        trace := [PublishTrack clipTrack "clip.ivf";
                  Stdout ("finished writing file clip.ivf" ++ newline)] |},
     Returns None) /\
  unpublishCalls
    (trace (fst (publishFile (session true []) "clip.ivf" (25 # 1) emptyWorld)))
  = [].
Proof. split; reflexivity. Qed.

Lemma publishFile_tracks c filename fps w w' o :
  publishFile c filename fps w = (w', o) ->
  exists added,
    trace w' = (trace w ++ added)%list /\
    forall track d,
      In track (publishedTracks added) ->
      frameDurationOf (trackOpts track) = Some d ->
      (filepath.Ext filename = ".h264" \/ filepath.Ext filename = ".ivf") /\
      nonzero fps = true.
Proof.
  intros H.
  apply publishFile_effect in H as [[Ht _] | (opts & Hopts & _ & _ & Ht)].
  - nothing_added.
  - eexists. split; [exact Ht|]. intros track d Hin Hd.
    assert (track = {| trackSource := FileSource filename; trackOpts := opts |}) as ->.
    { destruct (exhaustedDuringCall _); simpl in Hin; intuition. }
    apply setFrameRate_opts in Hopts as [_ Hfd].
    destruct (Hfd d Hd) as [Hvideo Hfps]. split; [|assumption].
    apply orb_true_iff in Hvideo. now rewrite !String.eqb_eq in Hvideo.
Qed.

Lemma publishReader_tracks c fuel rd mime fps w w' rd' o :
  publishReader c fuel rd mime fps w = (w', rd', o) ->
  exists added,
    trace w' = (trace w ++ added)%list /\
    forall track d,
      In track (publishedTracks added) ->
      frameDurationOf (trackOpts track) = Some d ->
      strings.EqualFold mime webrtc.MimeTypeVP8
      || strings.EqualFold mime webrtc.MimeTypeH264 = true /\
      nonzero fps = true.
Proof.
  intros H. destruct (String.eqb_spec mime MimeTypeDataByte) as [-> | Hmime].
  - rewrite publishReader_data in H.
    apply dataLoop_trace in H as (_ & added & Ht & Hall).
    exists added. split; [exact Ht|].
    rewrite (dataLoopEvent_no_track _ Hall). intros ? ? [].
  - apply publishReader_track_effect in H
      as [[Ht _] | (opts & Hopts & _ & _ & Ht)]; [| |exact Hmime].
    + nothing_added.
    + eexists. split; [exact Ht|]. intros track d Hin Hd.
      assert (track = {| trackSource := ReaderSource rd mime; trackOpts := opts |})
        as ->.
      { destruct (exhaustedDuringCall _); simpl in Hin; intuition. }
      apply setFrameRate_opts in Hopts as [_ Hfd]. exact (Hfd d Hd).
Qed.

(** Among the keys of the parser, only h264 and vp8 lead to a mime type that
    [publishReader] takes for a video stream. *)
Lemma video_mime_key k mime :
  In k mimeKeys ->
  publishSocket_mime k = Some mime ->
  strings.EqualFold mime webrtc.MimeTypeVP8
  || strings.EqualFold mime webrtc.MimeTypeH264 = true ->
  k = "h264" \/ k = "vp8".
Proof.
  simpl. intros [<- | [<- | [<- | [<- | []]]]] [= <-]; simpl; auto; discriminate.
Qed.

(** C9: in every publish operation, a track gets a frame duration only when
    the specifier is a video one (socket key h264 or vp8, or file extension
    .h264 or .ivf) and the requested rate is not zero; with any other key or
    extension, or with a zero rate, no frame duration is set. *)
Theorem frame_duration_only_for_video c fuel name fps w w' o :
  handlePublish c fuel name fps w = (w', o) ->
  exists added,
    trace w' = (trace w ++ added)%list /\
    forall track,
      In track (publishedTracks added) ->
      (forall d, frameDurationOf (trackOpts track) = Some d ->
                 videoSpecifier name /\ ~ fps == 0) /\
      (~ videoSpecifier name \/ fps == 0 ->
       frameDurationOf (trackOpts track) = None).
Proof.
  intros H.
  assert (exists added,
             trace w' = (trace w ++ added)%list /\
             forall track d,
               In track (publishedTracks added) ->
               frameDurationOf (trackOpts track) = Some d ->
               videoSpecifier name /\ ~ fps == 0) as (added & Ht & Hadded).
  { unfold handlePublish in H. destruct (isSocketFormat name) eqn:Hsock.
    - destruct (parseSocketFromName name) as [err | [[k s] a]] eqn:Hparse.
      + injection H as <- _. nothing_added.
      + unfold publishSocket in H.
        destruct (publishSocket_mime k) as [mime|] eqn:Hmime.
        * destruct (net_Dial c s a) as [err | sock].
          -- injection H as <- _. exists [Dial s a].
             split; [reflexivity | intros ? ? []].
          -- destruct (publishReader c fuel sock mime fps (emit (Dial s a) w))
               as [[w1 rd1] o1] eqn:Hrd.
             injection H as <- _.
             apply publishReader_tracks in Hrd as (added & Ht & Hadded).
             exists (Dial s a :: added).
             split; [rewrite Ht, trace_emit, <- app_assoc; reflexivity|].
             intros track d Hin Hd. destruct (Hadded track d Hin Hd) as [Hv Hfps].
             split; [|now apply nonzero_spec].
             left. split; [exact Hsock|]. exists k, s, a. split; [exact Hparse|].
             eapply video_mime_key; eauto.
             eapply parseSocketFromName_key; eassumption.
        * injection H as <- _. nothing_added.
    - apply publishFile_tracks in H as (added & Ht & Hadded).
      exists added. split; [exact Ht|]. intros track d Hin Hd.
      destruct (Hadded track d Hin Hd) as [Hext Hfps].
      split; [right; split; assumption | now apply nonzero_spec]. }
  exists added. split; [exact Ht|]. intros track Hin. split.
  - intros d Hd. exact (Hadded track d Hin Hd).
  - intros Hno. destruct (frameDurationOf (trackOpts track)) as [d|] eqn:Hd;
      [|reflexivity].
    destruct (Hadded track d Hin Hd) as [Hvideo Hfps]. tauto.
Qed.

Lemma frame_duration_only_for_video_witness :
  handlePublish (session false []) 1 "opus://mic.sock" (25 # 1) emptyWorld
  = ({| vars := [Some TR_1];
        trace := [Dial "unix" "mic.sock";
                  PublishTrack
                    {| trackSource := ReaderSource [] webrtc.MimeTypeOpus;
                       trackOpts :=
                         [ReaderTrackWithOnWriteComplete
                            {| hookText := "finished writing audio/opus stream"
                                           ++ newline;
                               hookPub := 0 |}] |} ""] |},
     Returns None) /\
  exists added,
    [Dial "unix" "mic.sock";
     PublishTrack
       {| trackSource := ReaderSource [] webrtc.MimeTypeOpus;
          trackOpts :=
            [ReaderTrackWithOnWriteComplete
               {| hookText := "finished writing audio/opus stream" ++ newline;
                  hookPub := 0 |}] |} ""] = added /\
    forall track,
      In track (publishedTracks added) ->
      (forall d, frameDurationOf (trackOpts track) = Some d ->
                 videoSpecifier "opus://mic.sock" /\ ~ (25 # 1) == 0) /\
      (~ videoSpecifier "opus://mic.sock" \/ (25 # 1) == 0 ->
       frameDurationOf (trackOpts track) = None).
Proof.
  split; [reflexivity|].
  exact (frame_duration_only_for_video (session false []) 1 "opus://mic.sock"
           (25 # 1) emptyWorld _ _ eq_refl).
Defined.

(* ================================================================== *)
(** * Further properties of the code *)
(* ================================================================== *)

(** ** The specifier parser, both ways *)

Lemma takeBytes_all (s : string) : forall n,
  (String.length s <= n)%nat -> takeBytes n s = s.
Proof.
  induction s as [|c s IH]; intros [|n] H; simpl in *; try reflexivity; try lia.
  rewrite IH by lia. reflexivity.
Qed.

Lemma length_dropBytes (s : string) : forall n,
  String.length (dropBytes n s) = (String.length s - n)%nat.
Proof.
  induction s as [|c s IH]; intros [|n]; simpl; try reflexivity. apply IH.
Qed.

Lemma Index_key_prefix (k a : string) :
  In k mimeKeys ->
  strings.Index (k ++ mimeDelimiter ++ a) mimeDelimiter = len k.
Proof.
  simpl. intros [<- | [<- | [<- | [<- | []]]]]; reflexivity.
Qed.

(** X1: writing a specifier and parsing it gives the parts back.  For every
    accepted key [k] and every non-empty address [a] (also one that itself
    contains the delimiter), [k://a] parses to [k], the transport of [a] and
    [a]. *)
Theorem parseSocketFromName_of_parts (k a : string) :
  In k mimeKeys -> a <> "" ->
  parseSocketFromName (k ++ mimeDelimiter ++ a) = inr (k, transportOf a, a).
Proof.
  intros Hk Ha.
  assert (Hsplit : firstSplit (k ++ mimeDelimiter ++ a) k a)
    by (apply firstSplit_of_Index; [reflexivity | now apply Index_key_prefix]).
  rewrite (parseSocketFromName_split _ _ _ Hsplit).
  apply mimeKeys_test in Hk. rewrite Hk.
  destruct (Z.eqb_spec (len a) 0) as [Hz | _]; [now apply len_zero in Hz|].
  unfold transportOf. now destruct (strings.Contains a ":").
Qed.

Lemma parseSocketFromName_of_parts_witness :
  In "h264" mimeKeys /\ "10.0.0.7:5004" <> "" /\
  parseSocketFromName "h264://10.0.0.7:5004" = inr ("h264", "tcp", "10.0.0.7:5004").
Proof.
  assert (Hk : In "h264" mimeKeys) by (simpl; auto).
  assert (Ha : "10.0.0.7:5004" <> "") by discriminate.
  split; [exact Hk|]. split; [exact Ha|].
  exact (parseSocketFromName_of_parts "h264" "10.0.0.7:5004" Hk Ha).
Defined.

Lemma parse_ok_isSocketFormat (name k s a : string) :
  parseSocketFromName name = inr (k, s, a) -> isSocketFormat name = true.
Proof.
  intros H. unfold isSocketFormat, strings.Contains.
  unfold parseSocketFromName in H.
  destruct (Z.eqb_spec (strings.Index name mimeDelimiter) (-1)) as [|Hne];
    [discriminate|].
  apply Z.leb_le. now apply Index_in_range.
Qed.

Lemma parse_file_name (name : string) :
  isSocketFormat name = false -> exists e, parseSocketFromName name = inl e.
Proof.
  unfold isSocketFormat, strings.Contains, parseSocketFromName. intros H.
  destruct (Z.eqb_spec (strings.Index name mimeDelimiter) (-1)) as [|Hne];
    [eauto|].
  apply Index_in_range in Hne as [H0 _]. apply Z.leb_le in H0. congruence.
Qed.

(** X2: a successful parse loses nothing.  The input is the key, the
    delimiter and the address, in that order; the key is one of the four,
    the address is not empty, the delimiter does not occur before the end of
    the key, and the transport is the one of the address. *)
Theorem parseSocketFromName_parts (name k s a : string) :
  parseSocketFromName name = inr (k, s, a) ->
  name = k ++ mimeDelimiter ++ a /\ firstSplit name k a /\
  In k mimeKeys /\ a <> "" /\ s = transportOf a.
Proof.
  intros H.
  assert (Hsock : isSocketFormat name = true)
    by (eapply parse_ok_isSocketFormat; eassumption).
  destruct (isSocketFormat_firstSplit _ Hsock) as (l & r & Hsplit).
  rewrite (parseSocketFromName_split _ _ _ Hsplit) in H.
  destruct (negb _ && _ && _ && _) eqn:Hkey; [discriminate|].
  apply mimeKeys_test in Hkey.
  destruct (Z.eqb_spec (len r) 0) as [|Hlen]; [discriminate|].
  assert (Hr : r <> "") by (intros ->; now apply Hlen).
  unfold transportOf.
  destruct (strings.Contains r ":") eqn:Hc; injection H as <- <- <-;
    rewrite Hc; (split; [apply Hsplit|]); auto.
Qed.

Lemma parseSocketFromName_parts_witness :
  parseSocketFromName "opus:///run/mic.sock" = inr ("opus", "unix", "/run/mic.sock") /\
  "opus:///run/mic.sock" = "opus" ++ mimeDelimiter ++ "/run/mic.sock" /\
  "unix" = transportOf "/run/mic.sock".
Proof.
  assert (H : parseSocketFromName "opus:///run/mic.sock"
              = inr ("opus", "unix", "/run/mic.sock")) by reflexivity.
  split; [exact H|].
  destruct (parseSocketFromName_parts _ _ _ _ H) as (Hname & _ & _ & _ & Ht).
  split; assumption.
Defined.

(** X3: the parser reports a missing delimiter exactly for the names that
    [isSocketFormat] rejects.  As [handlePublish] parses only names that
    [isSocketFormat] accepts, that error never comes out of [handlePublish]
    from the parser. *)
Theorem parseSocketFromName_no_delimiter (name : string) :
  parseSocketFromName name
    = inl (Errorf ("did not find delimiter " ++ mimeDelimiter ++ " in " ++ name))
  <-> isSocketFormat name = false.
Proof.
  unfold isSocketFormat, strings.Contains, parseSocketFromName.
  destruct (Z.eqb_spec (strings.Index name mimeDelimiter) (-1)) as [He | Hne].
  - rewrite He. split; reflexivity.
  - destruct (Index_in_range _ _ Hne) as [H0 _].
    apply Z.leb_le in H0. rewrite H0.
    split; [|discriminate].
    destruct (negb _ && _ && _ && _); [discriminate|].
    destruct (len _ =? 0); [discriminate|].
    destruct (negb _); discriminate.
Qed.

Lemma parseSocketFromName_no_delimiter_witness :
  isSocketFormat "clips/intro.ivf" = false /\
  parseSocketFromName "clips/intro.ivf"
  = inl (Errorf "did not find delimiter :// in clips/intro.ivf").
Proof.
  split; [reflexivity|].
  exact (proj2 (parseSocketFromName_no_delimiter "clips/intro.ivf") eq_refl).
Defined.

(** X4: the two slice expressions of the parser never go out of range.
    Whenever the delimiter is found, [name[:offset]] and
    [name[offset+len(mimeDelimiter):]] pass Go's bounds check, and are the
    strings the parser works with. *)
Theorem parseSocketFromName_slices_in_range (name : string) :
  strings.Index name mimeDelimiter <> -1 ->
  let offset := strings.Index name mimeDelimiter in
  slice name 0 offset = Some (sliceTo name offset) /\
  slice name (offset + len mimeDelimiter) (len name)
  = Some (sliceFrom name (offset + len mimeDelimiter)).
Proof.
  intros Hne offset. destruct (Index_in_range _ _ Hne) as [H0 H1].
  fold offset in H0, H1. pose proof (len_nonneg mimeDelimiter) as Hd.
  unfold slice, sliceTo, sliceFrom. split.
  - replace ((0 <=? 0) && (0 <=? offset) && (offset <=? len name)) with true
      by (symmetry; rewrite !andb_true_iff, !Z.leb_le; lia).
    rewrite Z.sub_0_r. reflexivity.
  - replace ((0 <=? offset + len mimeDelimiter)
             && (offset + len mimeDelimiter <=? len name)
             && (len name <=? len name)) with true
      by (symmetry; rewrite !andb_true_iff, !Z.leb_le; lia).
    f_equal. apply takeBytes_all. rewrite length_dropBytes. unfold len in *. lia.
Qed.

Lemma parseSocketFromName_slices_in_range_witness :
  strings.Index "vp8://cam" mimeDelimiter <> -1 /\
  slice "vp8://cam" 0 3 = Some "vp8" /\
  slice "vp8://cam" 6 9 = Some "cam".
Proof.
  assert (H : strings.Index "vp8://cam" mimeDelimiter <> -1) by discriminate.
  split; [exact H|].
  exact (parseSocketFromName_slices_in_range "vp8://cam" H).
Defined.

(** ** Frame pacing at the edges *)



Lemma setFrameRate_not_video (fps : Q) opts :
  setFrameRate false fps opts = Some opts.
Proof. reflexivity. Qed.



(** X6: a file that is not a video file is published the same whatever the
    rate, and never panics: with any extension other than .h264 and .ivf the
    rate is not looked at. *)
Theorem publishFile_rate_ignored c filename fps fps' w :
  filepath.Ext filename <> ".h264" -> filepath.Ext filename <> ".ivf" ->
  publishFile c filename fps w = publishFile c filename fps' w /\
  forall msg, snd (publishFile c filename fps w) <> Panics msg.
Proof.
  intros He Hi. unfold publishFile, declarePub. cbv zeta.
  destruct (String.eqb_spec (filepath.Ext filename) ".h264"); [contradiction|].
  destruct (String.eqb_spec (filepath.Ext filename) ".ivf"); [contradiction|].
  cbn [orb]. rewrite !setFrameRate_not_video. split; [reflexivity|].
  intros msg. destruct (NewLocalFileTrack c filename); [discriminate|].
  rewrite (surjective_pairing (callPublishTrack _ _ _ _)). discriminate.
Qed.

Lemma publishFile_rate_ignored_witness :
  publishFile (session false []) "voice.ogg" (1 # 2) emptyWorld
  = publishFile (session false []) "voice.ogg" (30 # 1) emptyWorld.
Proof.
  apply (publishFile_rate_ignored (session false []) "voice.ogg" (1 # 2) (30 # 1)
           emptyWorld); discriminate.
Defined.

(** X7: only the whole part of the rate counts.  Two rates with the same
    whole part, not zero, set the same frame duration: 23.98 frames per
    second are paced as 23 are. *)
Theorem setFrameRate_whole_part (video : bool) (fps fps' : Q) opts :
  time.Duration fps = time.Duration fps' -> time.Duration fps <> 0 ->
  setFrameRate video fps opts = setFrameRate video fps' opts.
Proof.
  intros Heq Hne.
  assert (Hnz : forall r, time.Duration r <> 0 -> nonzero r = true).
  { intros [num den]. unfold time.Duration, nonzero, Qeq_bool. simpl.
    intros H. apply negb_true_iff, Z.eqb_neq. intros Hz.
    apply H. replace num with 0 by lia. reflexivity. }
  unfold setFrameRate, frameDuration.
  rewrite (Hnz fps Hne), (Hnz fps') by congruence. now rewrite Heq.
Qed.

Lemma setFrameRate_whole_part_witness :
  setFrameRate true (2398 # 100) [] = setFrameRate true (23 # 1) [].
Proof.
  apply (setFrameRate_whole_part true (2398 # 100) (23 # 1) []);
    [reflexivity | discriminate].
Defined.

Lemma Duration_floor (fps : Q) :
  (1 <= fps)%Q ->
  1 <= time.Duration fps /\
  time.Duration fps * Zpos (Qden fps) <= Qnum fps
    < (time.Duration fps + 1) * Zpos (Qden fps).
Proof.
  destruct fps as [num den]. unfold time.Duration, Qle. simpl Qnum; simpl Qden.
  intros H. rewrite Z.quot_div_nonneg by lia.
  pose proof (Z.mul_div_le num (Zpos den) ltac:(lia)).
  pose proof (Z.mul_succ_div_gt num (Zpos den) ltac:(lia)).
  split; [|lia].
  apply Z.div_le_lower_bound; lia.
Qed.

Lemma FramePacer_compute_positive (fps : Q) :
  0 < Qnum fps ->
  FramePacer_compute fps = Some (time.Second * Zpos (Qden fps) / Qnum fps).
Proof.
  destruct fps as [num den]. simpl. intros Hnum. unfold FramePacer_compute.
  replace (Qeq_bool (num # den) 0) with false
    by (unfold Qeq_bool; simpl; symmetry; apply Z.eqb_neq; lia).
  f_equal. unfold Qfloor, Qdiv, Qmult, Qinv, inject_Z. simpl.
  destruct num as [|p|p]; try lia. reflexivity.
Qed.

(** X8: for a rate of at least one frame per second the frame duration the
    code sets is never shorter than the true 1/rate (in whole nanoseconds),
    and less than twice as long: frames are never paced faster than asked
    for, and slower by a factor below two. *)
Theorem frameDuration_bounds (fps : Q) :
  (1 <= fps)%Q ->
  exists d d',
    frameDuration fps = Some d /\ FramePacer_compute fps = Some d' /\
    d' <= d <= 2 * d' + 1.
Proof.
  intros H. destruct (Duration_floor fps H) as (Hn & Hlo & Hhi).
  set (n := time.Duration fps) in *.
  exists (time.Second / n), (time.Second * Zpos (Qden fps) / Qnum fps).
  assert (Hnum : 0 < Qnum fps) by nia.
  split; [|split].
  - unfold frameDuration, time.div. fold n.
    destruct (Z.eqb_spec n 0); [lia|].
    rewrite Z.quot_div_nonneg by (unfold time.Second; lia). reflexivity.
  - now apply FramePacer_compute_positive.
  - set (S := time.Second). set (D := Zpos (Qden fps)) in *.
    set (N := Qnum fps) in *.
    assert (HS : 0 <= S) by (unfold S, time.Second; lia).
    assert (HD : 0 < D) by (unfold D; lia).
    split.
    + (* S*D / N <= S*D / (n*D) = S / n *)
      transitivity (S * D / (n * D)).
      * apply Z.div_le_compat_l; nia.
      * rewrite Z.div_mul_cancel_r by lia. lia.
    + (* S / n <= 2 * (S*D / N) + 1, as N < 2 * n * D *)
      assert (H2 : S * D / (2 * n * D) <= S * D / N)
        by (apply Z.div_le_compat_l; nia).
      replace (2 * n * D) with ((2 * n) * D) in H2 by ring.
      rewrite Z.div_mul_cancel_r in H2 by lia.
      replace (2 * n) with (n * 2) in H2 by ring.
      rewrite <- Z.div_div in H2 by lia.
      pose proof (Z.div_mod (S / n) 2 ltac:(lia)).
      pose proof (Z.mod_pos_bound (S / n) 2 ltac:(lia)).
      lia.
Qed.

Lemma frameDuration_bounds_witness :
  exists d d',
    frameDuration (2997 # 100) = Some d /\
    FramePacer_compute (2997 # 100) = Some d' /\ d' <= d <= 2 * d' + 1.
Proof.
  apply (frameDuration_bounds (2997 # 100)). discriminate.
Defined.

(** X9: a negative rate is not refused: from -1 downwards it sets a frame
    duration that is zero or negative. *)
Theorem frameDuration_negative_rate (fps : Q) opts :
  (fps <= -1)%Q ->
  exists d,
    setFrameRate true fps opts = Some (opts ++ [ReaderTrackWithFrameDuration d])%list /\
    - time.Second <= d <= 0.
Proof.
  intros H. destruct fps as [num den]. unfold Qle in H. simpl in H.
  exists (Z.quot time.Second (Z.quot num (Zpos den))).
  assert (Hq : Z.quot num (Zpos den) <= -1).
  { rewrite <- (Z.opp_involutive num), Z.quot_opp_l by lia.
    rewrite Z.quot_div_nonneg by lia.
    assert (1 <= (- num) / Zpos den) by (apply Z.div_le_lower_bound; lia). lia. }
  split.
  - unfold setFrameRate, nonzero, frameDuration, time.div, time.Duration.
    simpl Qnum; simpl Qden.
    replace (Qeq_bool (num # den) 0) with false
      by (unfold Qeq_bool; simpl; symmetry; apply Z.eqb_neq; lia).
    simpl negb. cbv iota.
    destruct (Z.eqb_spec (Z.quot num (Zpos den)) 0); [lia | reflexivity].
  - set (n := Z.quot num (Zpos den)) in *.
    rewrite <- (Z.opp_involutive n), Z.quot_opp_r by lia.
    rewrite Z.quot_div_nonneg by (unfold time.Second; lia).
    assert (0 <= time.Second / - n) by (apply Z.div_pos; unfold time.Second; lia).
    assert (time.Second / - n <= time.Second)
      by (apply Z.div_le_upper_bound; unfold time.Second; lia).
    lia.
Qed.

Lemma frameDuration_negative_rate_witness :
  exists d,
    setFrameRate true (-30 # 1) []
    = Some ([] ++ [ReaderTrackWithFrameDuration d])%list /\
    - time.Second <= d <= 0.
Proof.
  apply (frameDuration_negative_rate (-30 # 1) []). discriminate.
Defined.

(** ** The data loop as a function of the chunks *)

Lemma length_ReadFrom (rd : Reader) : forall buf data e rd',
  bytes.ReadFrom buf rd = (data, e, rd') ->
  (List.length rd' <= List.length rd)%nat /\
  (rd <> [] -> (List.length rd' < List.length rd)%nat).
Proof.
  induction rd as [|[chunk [e0|]] rd IH]; intros buf data e rd' H; simpl in H.
  - injection H as _ _ <-. split; [reflexivity | congruence].
  - destruct e0; injection H as _ _ <-; simpl; split; intros; lia.
  - apply IH in H as [H _]. simpl. split; intros; lia.
Qed.

(** One read takes one chunk off the front; the empty chunk that a finished
    script keeps delivering changes neither what is forwarded nor how the
    loop ends. *)
Lemma ReadFrom_chunksFrom mime (rd : Reader) : forall buf data e rd',
  bytes.ReadFrom buf rd = (data, e, rd') ->
  forwarded (chunksFrom buf rd) = forwarded ((data, e) :: chunks rd') /\
  stopsWith mime (chunksFrom buf rd) = stopsWith mime ((data, e) :: chunks rd').
Proof.
  induction rd as [|[chunk [e0|]] rd IH]; intros buf data e rd' H; simpl in H.
  - injection H as <- <- <-. simpl.
    destruct (String.eqb buf ""); [split; reflexivity|].
    destruct (String.eqb buf "EXIT"); split; reflexivity.
  - destruct e0; injection H as <- <- <-; split; reflexivity.
  - simpl. now apply IH.
Qed.

(** X10: when the session accepts every message, the loop forwards exactly
    the non-empty chunks of the source that come before its first read error
    and its first sentinel, once each and in the order read, and it ends as
    the first of these two decides (or keeps polling when there is
    neither). *)
Theorem dataLoop_forwards_chunks c mime :
  (forall t data, LocalParticipant_PublishData c t data = None) ->
  forall fuel rd w w' rd' o,
    (List.length rd <= fuel)%nat ->
    dataLoop c mime fuel rd w = (w', rd', o) ->
    dataMessages (trace w')
    = (dataMessages (trace w)
       ++ map (fun data => (data, DataPacket_RELIABLE)) (forwarded (chunks rd)))%list /\
    o = stopsWith mime (chunks rd).
Proof.
  intros Hsend fuel. induction fuel as [|fuel IH]; intros rd w w' rd' o Hlen H.
  - destruct rd; [|simpl in Hlen; lia].
    injection H as <- _ <-. simpl. rewrite app_nil_r. split; reflexivity.
  - destruct rd as [|x rd0].
    { rewrite dataLoop_ended_source in H. injection H as <- _ <-.
      change (idle fuel (emit (Sleep 10000000) w)) with (idle (S fuel) w).
      rewrite (proj2 (dataMessages_idle (S fuel) w)). simpl.
      rewrite app_nil_r. split; reflexivity. }
    set (rd := x :: rd0) in *.
    destruct (bytes.ReadFrom "" rd) as [[data e] rd1] eqn:R.
    destruct (ReadFrom_chunksFrom mime rd "" data e rd1 R) as [Hf Hs].
    unfold chunks. rewrite Hf, Hs.
    assert (Hlen1 : (List.length rd1 <= fuel)%nat).
    { apply length_ReadFrom in R as [_ R]. subst rd. simpl in *.
      assert (x :: rd0 <> []) by discriminate. specialize (R H0). lia. }
    destruct e as [e|].
    + rewrite (dataLoop_read_error _ _ _ _ _ _ _ _ R) in H. injection H as <- _ <-.
      simpl. rewrite app_nil_r. split; reflexivity.
    + destruct (String.eqb_spec data "") as [-> | Hne].
      * rewrite (dataLoop_no_bytes _ _ _ _ _ _ R) in H.
        apply IH in H as [Hm Ho]; [|exact Hlen1].
        rewrite Hm, trace_emit, dataMessages_app. simpl.
        rewrite app_nil_r. split; [reflexivity | exact Ho].
      * destruct (String.eqb_spec data "EXIT") as [-> | Hexit].
        -- rewrite (dataLoop_sentinel _ _ _ _ _ _ R) in H. injection H as <- _ <-.
           simpl. rewrite app_nil_r. split; reflexivity.
        -- rewrite (dataLoop_forward _ _ _ _ _ _ _ R Hne Hexit) in H.
           cbv zeta in H. rewrite Hsend in H.
           apply IH in H as [Hm Ho]; [|exact Hlen1].
           rewrite Hm, !trace_emit, !dataMessages_app. simpl.
           destruct (String.eqb_spec data ""); [contradiction|].
           destruct (String.eqb_spec data "EXIT"); [contradiction|].
           rewrite !app_nil_r, <- app_assoc. split; [reflexivity | exact Ho].
Qed.

Lemma dataLoop_forwards_chunks_witness :
  dataMessages
    (trace (fst (fst (dataLoop (session false []) MimeTypeDataByte 6 mixedSource
                        emptyWorld))))
  = [("ab", DataPacket_RELIABLE); ("c", DataPacket_RELIABLE)] /\
  snd (dataLoop (session false []) MimeTypeDataByte 6 mixedSource emptyWorld)
  = Returns (Some (Errorf "finished writing data/byte stream")).
Proof.
  destruct (dataLoop (session false []) MimeTypeDataByte 6 mixedSource emptyWorld)
    as [[w' rd'] o] eqn:H.
  destruct (dataLoop_forwards_chunks (session false []) MimeTypeDataByte
              (fun _ _ => eq_refl) 6%nat mixedSource emptyWorld w' rd' o
              (le_n 6) H) as [Hm Ho].
  simpl fst; simpl snd. rewrite Hm, Ho. split; reflexivity.
Defined.

Lemma sleepTime_app (s t : list event) :
  sleepTime (s ++ t) = sleepTime s + sleepTime t.
Proof.
  induction s as [|e s IH]; [reflexivity|].
  destruct e; simpl; rewrite IH; lia.
Qed.

Lemma dials_app (s t : list event) : dials (s ++ t) = (dials s ++ dials t)%list.
Proof.
  induction s as [|e s IH]; [reflexivity|].
  destruct e; simpl; rewrite IH; reflexivity.
Qed.

(** X11: the loop is paced.  Whatever the source and the session do, the
    messages forwarded in a run are at most one more than the 10 ms sleeps
    made: forwarding [n] messages takes at least [(n - 1) * 10] ms of
    sleep. *)
Theorem dataLoop_paced c mime fuel : forall rd w w' rd' o,
  dataLoop c mime fuel rd w = (w', rd', o) ->
  exists added,
    trace w' = (trace w ++ added)%list /\
    10 * time.Millisecond * (Z.of_nat (List.length (dataMessages added)) - 1)
    <= sleepTime added.
Proof.
  induction fuel as [|fuel IH]; intros rd w w' rd' o H.
  - injection H as <- _ _. exists []. rewrite app_nil_r.
    split; [reflexivity | simpl; unfold time.Millisecond; lia].
  - destruct (bytes.ReadFrom "" rd) as [[data [e|]] rd1] eqn:R.
    + rewrite (dataLoop_read_error _ _ _ _ _ _ _ _ R) in H. injection H as <- _ _.
      exists []. rewrite app_nil_r.
      split; [reflexivity | simpl; unfold time.Millisecond; lia].
    + destruct (String.eqb_spec data "") as [-> | Hne].
      * rewrite (dataLoop_no_bytes _ _ _ _ _ _ R) in H.
        apply IH in H as (added & Ht & Hpace).
        exists (Sleep (10 * time.Millisecond) :: added).
        rewrite Ht, trace_emit, <- app_assoc. split; [reflexivity|].
        cbn [dataMessages sleepTime]. unfold time.Millisecond in *. lia.
      * destruct (String.eqb_spec data "EXIT") as [-> | Hexit].
        -- rewrite (dataLoop_sentinel _ _ _ _ _ _ R) in H. injection H as <- _ _.
           exists []. rewrite app_nil_r.
           split; [reflexivity | simpl; unfold time.Millisecond; lia].
        -- rewrite (dataLoop_forward _ _ _ _ _ _ _ R Hne Hexit) in H. cbv zeta in H.
           destruct (LocalParticipant_PublishData c _ data) as [e|].
           ++ injection H as <- _ _.
              exists [Printf (data ++ newline); PublishData data DataPacket_RELIABLE].
              rewrite !trace_emit, <- app_assoc. split; [reflexivity|].
              simpl. unfold time.Millisecond. lia.
           ++ apply IH in H as (added & Ht & Hpace).
              exists (Printf (data ++ newline)
                        :: PublishData data DataPacket_RELIABLE
                        :: Sleep (10 * time.Millisecond) :: added).
              rewrite Ht, !trace_emit, <- !app_assoc. split; [reflexivity|].
              cbn [dataMessages sleepTime List.length].
              unfold time.Millisecond in *. lia.
Qed.

Lemma dataLoop_paced_witness :
  exists added,
    trace (fst (fst (dataLoop (session false []) MimeTypeDataByte 6 mixedSource
                       emptyWorld)))
    = (trace emptyWorld ++ added)%list /\
    10 * time.Millisecond * (Z.of_nat (List.length (dataMessages added)) - 1)
    <= sleepTime added.
Proof.
  destruct (dataLoop (session false []) MimeTypeDataByte 6 mixedSource emptyWorld)
    as [[w' rd'] o] eqn:H.
  exact (dataLoop_paced (session false []) MimeTypeDataByte 6 mixedSource
           emptyWorld w' rd' o H).
Defined.

(** ** How the publish functions end *)

Lemma dataLoop_outcome c mime fuel : forall rd w w' rd' o,
  dataLoop c mime fuel rd w = (w', rd', o) ->
  o = StillLooping \/ exists e, o = Returns (Some e).
Proof.
  induction fuel as [|fuel IH]; intros rd w w' rd' o H.
  - injection H as _ _ <-. now left.
  - simpl in H. destruct (bytes.ReadFrom "" rd) as [[data [e|]] rd1].
    + injection H as _ _ <-. right; now exists e.
    + destruct (0 <? len data).
      * destruct (String.eqb data "EXIT").
        -- injection H as _ _ <-. right; eauto.
        -- destruct (LocalParticipant_PublishData c _ data) as [e|].
           ++ injection H as _ _ <-. right; now exists e.
           ++ eapply IH; eassumption.
      * eapply IH; eassumption.
Qed.

Lemma handlePublish_data c fuel name fps w s a :
  parseSocketFromName name = inr ("data", s, a) ->
  handlePublish c fuel name fps w
  = match net_Dial c s a with
    | inl err => (emit (Dial s a) w, Returns (Some err))
    | inr sock =>
        let '(w', _, o) :=
          dataLoop c MimeTypeDataByte fuel sock
            (snd (declarePub (emit (Dial s a) w))) in (w', o)
    end.
Proof.
  intros H. unfold handlePublish.
  rewrite (parse_ok_isSocketFormat _ _ _ _ H), H. reflexivity.
Qed.

(** X12: a data specifier never ends well.  [handlePublish] on a specifier
    with the key data returns an error or is still looping, never nil; so in
    a run the specifiers that follow it are never handled: the run is the
    same as if the list ended there. *)
Theorem data_specifier_is_last c fuel fps pre name post w s a :
  parseSocketFromName name = inr ("data", s, a) ->
  (forall w0, snd (handlePublish c fuel name fps w0) <> Returns None) /\
  joinRoom_publish c fuel (pre ++ name :: post) fps w
  = joinRoom_publish c fuel (pre ++ [name]) fps w.
Proof.
  intros Hparse.
  assert (Hend : forall w0, snd (handlePublish c fuel name fps w0) <> Returns None).
  { intros w0. rewrite (handlePublish_data _ _ _ _ _ _ _ Hparse).
    destruct (net_Dial c s a) as [err | sock]; [discriminate|].
    destruct (dataLoop c MimeTypeDataByte fuel sock _) as [[w' rd'] o] eqn:Hloop.
    apply dataLoop_outcome in Hloop as [-> | [e ->]]; discriminate. }
  split; [exact Hend|].
  rewrite !joinRoom_publish_app.
  destruct (joinRoom_publish c fuel pre fps w) as [w1 [[e|]|msg|]]; try reflexivity.
  simpl. specialize (Hend w1).
  destruct (handlePublish c fuel name fps w1) as [w2 [[e|]|msg|]];
    try reflexivity.
  now destruct Hend.
Qed.

Lemma data_specifier_is_last_witness :
  parseSocketFromName "data://ctl.sock" = inr ("data", "unix", "ctl.sock") /\
  joinRoom_publish (session false [("ping", Some io_EOF)]) 3
    ["clip.ivf"; "data://ctl.sock"; "late.ivf"] (25 # 1) emptyWorld
  = joinRoom_publish (session false [("ping", Some io_EOF)]) 3
      ["clip.ivf"; "data://ctl.sock"] (25 # 1) emptyWorld.
Proof.
  split; [reflexivity|].
  exact (proj2 (data_specifier_is_last (session false [("ping", Some io_EOF)]) 3
                  (25 # 1) ["clip.ivf"] "data://ctl.sock" ["late.ivf"] emptyWorld
                  "unix" "ctl.sock" eq_refl)).
Defined.




Lemma publishReader_track_any_fuel c fuel fuel' rd mime fps w :
  mime <> MimeTypeDataByte ->
  publishReader c fuel rd mime fps w = publishReader c fuel' rd mime fps w /\
  snd (publishReader c fuel rd mime fps w) <> StillLooping.
Proof.
  intros Hmime. unfold publishReader, declarePub. cbv zeta.
  destruct (setFrameRate _ fps _) as [opts|]; [|split; [reflexivity | discriminate]].
  destruct (String.eqb_spec mime MimeTypeDataByte); [contradiction|].
  simpl negb. cbv iota.
  destruct (NewLocalReaderTrack c rd mime); [split; [reflexivity | discriminate]|].
  rewrite (surjective_pairing (callPublishTrack _ _ _ _)).
  split; [reflexivity | discriminate].
Qed.

Lemma publishFile_returns c filename fps w :
  snd (publishFile c filename fps w) <> StillLooping.
Proof.
  unfold publishFile, declarePub. cbv zeta.
  destruct (setFrameRate _ fps _) as [opts|]; [|discriminate].
  destruct (NewLocalFileTrack c filename); [discriminate|].
  rewrite (surjective_pairing (callPublishTrack _ _ _ _)). discriminate.
Qed.

(** X14: publishing a track does not block.  For a file, and for a socket
    specifier whose key is not data, [handlePublish] has returned or
    panicked by the time the data loop would start: its result does not
    depend on the bound on the loop, and it is never still looping. *)
Theorem handlePublish_track_returns c fuel fuel' name fps w :
  (forall s a, parseSocketFromName name <> inr ("data", s, a)) ->
  handlePublish c fuel name fps w = handlePublish c fuel' name fps w /\
  snd (handlePublish c fuel name fps w) <> StillLooping.
Proof.
  intros Hnot. unfold handlePublish.
  destruct (isSocketFormat name); [|split; [reflexivity | apply publishFile_returns]].
  destruct (parseSocketFromName name) as [err | [[k s] a]] eqn:Hparse;
    [split; [reflexivity | discriminate]|].
  assert (Hk : In k mimeKeys) by (eapply parseSocketFromName_key; eassumption).
  assert (k <> "data") by (intros ->; now apply (Hnot s a)).
  unfold publishSocket.
  destruct (publishSocket_mime k) as [mime|] eqn:Hmime;
    [|split; [reflexivity | discriminate]].
  assert (mime <> MimeTypeDataByte).
  { simpl in Hk. destruct Hk as [<- | [<- | [<- | [<- | []]]]];
      try congruence; injection Hmime as <-; discriminate. }
  destruct (net_Dial c s a) as [err | sock]; [split; [reflexivity | discriminate]|].
  destruct (publishReader_track_any_fuel c fuel fuel' sock mime fps
              (emit (Dial s a) w) H0) as [Heq Hret].
  rewrite <- Heq.
  destruct (publishReader c fuel sock mime fps (emit (Dial s a) w)) as [[w1 rd1] o1].
  split; [reflexivity | exact Hret].
Qed.

Lemma handlePublish_track_returns_witness :
  handlePublish (session false helloExitWorld) 0 "vp8://cam.sock" (30 # 1) emptyWorld
  = handlePublish (session false helloExitWorld) 9 "vp8://cam.sock" (30 # 1)
      emptyWorld /\
  snd (handlePublish (session false helloExitWorld) 0 "vp8://cam.sock" (30 # 1)
         emptyWorld) <> StillLooping.
Proof.
  apply (handlePublish_track_returns (session false helloExitWorld) 0 9
           "vp8://cam.sock" (30 # 1) emptyWorld).
  intros s a. discriminate.
Defined.

(** ** What a publish leaves behind *)

Lemma publishFile_grows c filename fps w w' o :
  publishFile c filename fps w = (w', o) ->
  exists v added,
    vars w' = (vars w ++ [v])%list /\ trace w' = (trace w ++ added)%list /\
    dials added = [].
Proof.
  unfold publishFile, declarePub. cbv zeta.
  destruct (setFrameRate _ fps _) as [opts|] eqn:Hopts.
  - destruct (NewLocalFileTrack c filename) as [err|].
    + intros [= <- <-]. exists None, []. simpl. now rewrite app_nil_r.
    + rewrite (surjective_pairing (callPublishTrack _ _ _ _)).
      intros [= <- <-].
      apply setFrameRate_opts in Hopts as [Hhook _].
      destruct (publish_then_assign c
                  {| trackSource := FileSource filename; trackOpts := opts |}
                  filename _ w Hhook eq_refl) as [Hv Ht].
      eexists _, _. split; [exact Hv|]. split; [exact Ht|].
      now destruct (exhaustedDuringCall _).
  - intros [= <- <-]. exists None, []. simpl. now rewrite app_nil_r.
Qed.

Lemma dataLoopEvent_no_dial (added : list event) :
  Forall dataLoopEvent added -> dials added = [].
Proof.
  induction 1 as [|e added He _ IH]; [reflexivity|].
  destruct e; simpl in *; try assumption; contradiction.
Qed.

Lemma publishReader_grows c fuel rd mime fps w w' rd' o :
  publishReader c fuel rd mime fps w = (w', rd', o) ->
  exists v added,
    vars w' = (vars w ++ [v])%list /\ trace w' = (trace w ++ added)%list /\
    dials added = [].
Proof.
  destruct (String.eqb_spec mime MimeTypeDataByte) as [-> | Hmime].
  - rewrite publishReader_data. intros H.
    apply dataLoop_trace in H as (Hv & added & Ht & Hall).
    exists None, added. split; [exact Hv|]. split; [exact Ht|].
    now apply dataLoopEvent_no_dial.
  - unfold publishReader, declarePub. cbv zeta.
    destruct (setFrameRate _ fps _) as [opts|] eqn:Hopts.
    + destruct (String.eqb_spec mime MimeTypeDataByte); [contradiction|].
      simpl negb. cbv iota.
      destruct (NewLocalReaderTrack c rd mime) as [err|].
      * intros [= <- _ <-]. exists None, []. simpl. now rewrite app_nil_r.
      * rewrite (surjective_pairing (callPublishTrack _ _ _ _)).
        intros [= <- _ <-].
        apply setFrameRate_opts in Hopts as [Hhook _].
        destruct (publish_then_assign c
                    {| trackSource := ReaderSource rd mime; trackOpts := opts |}
                    "" _ w Hhook eq_refl) as [Hv Ht].
        eexists _, _. split; [exact Hv|]. split; [exact Ht|].
        now destruct (exhaustedDuringCall _).
    + intros [= <- _ <-]. exists None, []. simpl. now rewrite app_nil_r.
Qed.

Lemma handlePublish_grows c fuel name fps w w' o :
  handlePublish c fuel name fps w = (w', o) ->
  exists vs added,
    vars w' = (vars w ++ vs)%list /\ trace w' = (trace w ++ added)%list.
Proof.
  unfold handlePublish. destruct (isSocketFormat name).
  - destruct (parseSocketFromName name) as [err | [[k s] a]].
    + intros [= <- _]. exists [], []. now rewrite !app_nil_r.
    + unfold publishSocket. destruct (publishSocket_mime k) as [mime|].
      * destruct (net_Dial c s a) as [err | sock].
        -- intros [= <- _]. exists [], [Dial s a]. simpl. now rewrite app_nil_r.
        -- destruct (publishReader c fuel sock mime fps (emit (Dial s a) w))
             as [[w1 rd1] o1] eqn:Hrd.
           intros [= <- _].
           apply publishReader_grows in Hrd as (v & added & Hv & Ht & _).
           exists [v], (Dial s a :: added). split; [exact Hv|].
           rewrite Ht, trace_emit, <- app_assoc. reflexivity.
      * intros [= <- _]. exists [], []. now rewrite !app_nil_r.
  - intros H. apply publishFile_grows in H as (v & added & Hv & Ht & _).
    now exists [v], added.
Qed.

Lemma joinRoom_publish_grows c fuel fps (pubs : list string) : forall w w' o,
  joinRoom_publish c fuel pubs fps w = (w', o) ->
  exists vs added,
    vars w' = (vars w ++ vs)%list /\ trace w' = (trace w ++ added)%list.
Proof.
  induction pubs as [|pub pubs IH]; intros w w' o H; simpl in H.
  - injection H as <- _. exists [], []. now rewrite !app_nil_r.
  - destruct (handlePublish c fuel pub fps w) as [w1 o1] eqn:H1.
    apply handlePublish_grows in H1 as (vs1 & added1 & Hv1 & Ht1).
    assert (Hstop : (w', o) = (w1, o1) -> exists vs added,
               vars w' = (vars w ++ vs)%list /\ trace w' = (trace w ++ added)%list)
      by (intros [= -> _]; eauto).
    destruct o1 as [[e|]|msg|]; try (apply Hstop; now symmetry).
    apply IH in H as (vs2 & added2 & Hv2 & Ht2).
    exists (vs1 ++ vs2)%list, (added1 ++ added2)%list.
    rewrite Hv2, Ht2, Hv1, Ht1, !app_assoc. split; reflexivity.
Qed.

(** X15: a run of [joinRoom]'s publish loop only adds to what is there: the
    [pub] variable of a track published earlier keeps its value through
    every later publish, so the completion hook of that track does, after
    the run, exactly what it would have done before it. *)
Theorem earlier_hooks_unaffected c fuel fps pubs w w' o (f : OnWriteComplete) :
  joinRoom_publish c fuel pubs fps w = (w', o) ->
  (hookPub f < List.length (vars w))%nat ->
  readPub (hookPub f) w' = readPub (hookPub f) w /\
  exists did,
    trace (runHook f w) = (trace w ++ did)%list /\
    trace (runHook f w') = (trace w' ++ did)%list.
Proof.
  intros H Hp. apply joinRoom_publish_grows in H as (vs & added & Hv & _).
  assert (Hread : readPub (hookPub f) w' = readPub (hookPub f) w).
  { unfold readPub. rewrite Hv. now rewrite nth_error_app1. }
  split; [exact Hread|].
  unfold runHook.
  assert (Hr : forall w0, readPub (hookPub f) (emit (Stdout (hookText f)) w0)
                          = readPub (hookPub f) w0) by reflexivity.
  rewrite !Hr, Hread.
  destruct (readPub (hookPub f) w) as [pub|].
  - exists [Stdout (hookText f); UnpublishTrack (SID pub)].
    rewrite !trace_emit, <- !app_assoc. split; reflexivity.
  - exists [Stdout (hookText f)]. rewrite !trace_emit. split; reflexivity.
Qed.

Lemma earlier_hooks_unaffected_witness :
  readPub 0
    (fst (joinRoom_publish (session false []) 1 ["voice.ogg"; "opus://mic.sock"]
            0 clipPublished))
  = Some TR_1.
Proof.
  destruct (joinRoom_publish (session false []) 1 ["voice.ogg"; "opus://mic.sock"]
              0 clipPublished) as [w' o] eqn:H.
  exact (proj1 (earlier_hooks_unaffected (session false []) 1 0
                  ["voice.ogg"; "opus://mic.sock"] clipPublished w' o
                  {| hookText := "finished writing file clip.ivf" ++ newline;
                     hookPub := 0 |} H (le_n 1))).
Defined.

(** X16: [handlePublish] dials exactly when the name parses as a socket
    specifier, once, with the transport and address the parser returned; a
    file name, or a specifier the parser refuses, opens no socket.  When the
    dial fails, its error is returned as it is and nothing else is done: no
    [pub] variable, no track, no message. *)
Theorem handlePublish_dials c fuel name fps w w' o :
  handlePublish c fuel name fps w = (w', o) ->
  exists added,
    trace w' = (trace w ++ added)%list /\
    dials added = match parseSocketFromName name with
                  | inr (_, s, a) => [(s, a)]
                  | inl _ => []
                  end /\
    forall k s a err,
      parseSocketFromName name = inr (k, s, a) -> net_Dial c s a = inl err ->
      added = [Dial s a] /\ vars w' = vars w /\ o = Returns (Some err).
Proof.
  unfold handlePublish. destruct (isSocketFormat name) eqn:Hsock.
  - destruct (parseSocketFromName name) as [e | [[k s] a]] eqn:Hparse.
    + intros [= <- _]. exists []. rewrite app_nil_r.
      split; [reflexivity|]. split; [reflexivity | discriminate].
    + assert (Hk : In k mimeKeys) by (eapply parseSocketFromName_key; eassumption).
      unfold publishSocket.
      destruct (publishSocket_mime k) as [mime|] eqn:Hmime.
      * destruct (net_Dial c s a) as [e | sock] eqn:Hdial.
        -- intros [= <- <-]. exists [Dial s a].
           split; [reflexivity|]. split; [reflexivity|].
           intros k' s' a' err [= <- <- <-] Herr.
           rewrite Hdial in Herr. injection Herr as <-. auto.
        -- destruct (publishReader c fuel sock mime fps (emit (Dial s a) w))
             as [[w1 rd1] o1] eqn:Hrd.
           intros [= <- _].
           apply publishReader_grows in Hrd as (v & added & _ & Ht & Hd).
           exists (Dial s a :: added).
           split; [rewrite Ht, trace_emit, <- app_assoc; reflexivity|].
           split; [simpl; now rewrite Hd|].
           intros k' s' a' err [= <- <- <-] Herr. congruence.
      * simpl in Hk. destruct Hk as [<- | [<- | [<- | [<- | []]]]]; discriminate.
  - intros H. destruct (parse_file_name _ Hsock) as [e He]. rewrite He.
    apply publishFile_grows in H as (v & added & _ & Ht & Hd).
    exists added. split; [exact Ht|]. split; [exact Hd | discriminate].
Qed.

Lemma handlePublish_dials_witness :
  handlePublish (session false []) 1 "h264://nohost:1" (25 # 1) clipPublished
  = ({| vars := [Some TR_1];
        trace := [PublishTrack clipTrack "clip.ivf"; Dial "tcp" "nohost:1"] |},
     Returns (Some (ExternalError "dial tcp: connection refused"))) /\
  exists added,
    [PublishTrack clipTrack "clip.ivf"; Dial "tcp" "nohost:1"]
    = (trace clipPublished ++ added)%list /\
    dials added = [("tcp", "nohost:1")].
Proof.
  split; [reflexivity|].
  destruct (handlePublish_dials (session false []) 1 "h264://nohost:1" (25 # 1)
              clipPublished _ _ eq_refl) as (added & Ht & Hd & _).
  exists added. split; [exact Ht | exact Hd].
Defined.

(** ** Connection details *)

Lemma pcFromFlags_flags (c : Context) : pcFromFlags c = flagsProject c.
Proof.
  unfold pcFromFlags, flagsProject, nonEmpty. cbv zeta.
  destruct (String.eqb_spec (ctxString c "url") "") as [-> | _];
    destruct (String.eqb_spec (ctxString c "token") "") as [-> | _];
    destruct (String.eqb_spec (ctxString c "api-key") "") as [-> | _];
    destruct (String.eqb_spec (ctxString c "api-secret") "") as [-> | _];
    reflexivity.
Qed.

Lemma nonEmpty_true (s : string) : nonEmpty s = true <-> s <> "".
Proof.
  unfold nonEmpty. destruct (String.eqb_spec s ""); simpl; split;
    intros; try congruence; try discriminate.
Qed.

Lemma nonEmpty_false (s : string) : nonEmpty s = false <-> s = "".
Proof.
  unfold nonEmpty. destruct (String.eqb_spec s ""); simpl; split;
    intros; try congruence; try discriminate.
Qed.

(** The two tests on the flags, taken together, are [flagsComplete]. *)
Lemma flagsComplete_tests (required : bool) (c : Context) :
  nonEmpty (ctxString c "token")
  && (nonEmpty (ctxString c "url") || negb required)
  || nonEmpty (ctxString c "api-key") && nonEmpty (ctxString c "api-secret")
     && (nonEmpty (ctxString c "url") || negb required) = true
  <-> flagsComplete required c.
Proof.
  unfold flagsComplete.
  rewrite orb_true_iff, !andb_true_iff, !orb_true_iff, !nonEmpty_true,
    negb_true_iff.
  tauto.
Qed.

(** The outcome of [loadProjectDetails] when no project is named, by the
    flags and the default project. *)
Lemma loadProjectDetails_unnamed sur c opts :
  ctxString c "project" = "" ->
  (flagsComplete (requiredOf opts) c /\
   snd (loadProjectDetails sur c opts) = inr (flagsProject c)) \/
  (~ flagsComplete (requiredOf opts) c /\
   match config_LoadDefaultProject sur with
   | inr dp =>
       loadProjectDetails sur c opts
       = (("Using default project " ++ Name dp ++ newline) :: logDetails sur c dp,
          inr dp)
   | inl _ =>
       loadProjectDetails sur c opts
       = ([], inl (errors_New (firstMissing (requiredOf opts) c ++ " is required")))
   end).
Proof.
  intros Hproj.
  pose proof (flagsComplete_tests (requiredOf opts) c) as Htests.
  unfold loadProjectDetails, firstMissing. cbv zeta.
  fold (requiredOf opts). rewrite pcFromFlags_flags.
  apply nonEmpty_false in Hproj. rewrite Hproj.
  cbn [URL Token APIKey APISecret flagsProject].
  destruct (nonEmpty (ctxString c "token")
            && (nonEmpty (ctxString c "url") || negb (requiredOf opts))) eqn:Htok.
  - left. split; [apply Htests; now rewrite orb_true_l | reflexivity].
  - destruct (nonEmpty (ctxString c "api-key")
              && nonEmpty (ctxString c "api-secret")
              && (nonEmpty (ctxString c "url") || negb (requiredOf opts))) eqn:Hkey.
    + left. split; [apply Htests; now rewrite orb_true_r | reflexivity].
    + right. split; [rewrite <- Htests; simpl; discriminate|].
      destruct (config_LoadDefaultProject sur) as [e | dp]; [|reflexivity].
      unfold nonEmpty in Htok, Hkey.
      destruct (requiredOf opts);
        destruct (String.eqb (ctxString c "url") "");
        destruct (String.eqb (ctxString c "token") "");
        destruct (String.eqb (ctxString c "api-key") "");
        destruct (String.eqb (ctxString c "api-secret") "");
        simpl in *; try reflexivity; discriminate.
Qed.

(** X17: a configuration returned by [loadProjectDetails] is never short of
    credentials the code made up: it is the named project as loaded, or the
    flags when they hold a token or a key with its secret (and a URL where
    required), or else the default project as loaded.  The last [return] of
    the function, marked "cannot happen", is indeed never reached. *)
Theorem loadProjectDetails_success sur c opts out pc :
  loadProjectDetails sur c opts = (out, inr pc) ->
  (ctxString c "project" <> "" /\
   config_LoadProject sur (ctxString c "project") = inr pc) \/
  (ctxString c "project" = "" /\
   flagsComplete (requiredOf opts) c /\ pc = flagsProject c) \/
  (ctxString c "project" = "" /\
   ~ flagsComplete (requiredOf opts) c /\ config_LoadDefaultProject sur = inr pc).
Proof.
  intros H. destruct (String.eqb_spec (ctxString c "project") "") as [Hp | Hp].
  - right. destruct (loadProjectDetails_unnamed sur c opts Hp) as [[Hc Hr] | [Hc Hr]].
    + left. rewrite H in Hr. simpl in Hr. injection Hr as ->. auto.
    + right. destruct (config_LoadDefaultProject sur) as [e | dp];
        rewrite H in Hr; [discriminate|].
      injection Hr as _ ->. auto.
  - left. split; [exact Hp|].
    unfold loadProjectDetails in H. cbv zeta in H.
    apply nonEmpty_true in Hp. rewrite Hp in H.
    destruct (config_LoadProject sur (ctxString c "project")) as [e | pc'];
      [discriminate|].
    now injection H as _ ->.
Qed.

Lemma loadProjectDetails_success_witness :
  loadProjectDetails bareSurroundings
    (contextOf [("url", "ws://lk.example"); ("token", "tok")]) []
  = ([], inr {| Name := ""; URL := "ws://lk.example"; Token := "tok";
                APIKey := ""; APISecret := "" |}) /\
  flagsComplete true (contextOf [("url", "ws://lk.example"); ("token", "tok")]).
Proof.
  split; [reflexivity|].
  destruct (loadProjectDetails_success bareSurroundings
              (contextOf [("url", "ws://lk.example"); ("token", "tok")]) [] _ _
              eq_refl) as [[Hp _] | [(_ & Hc & _) | (_ & _ & Hd)]].
  - now destruct Hp.
  - exact Hc.
  - discriminate Hd.
Defined.



(** X19: a named project comes before everything else, and there is no
    way back from it.  With a non-empty [project] flag the result is what
    [config.LoadProject] gives for that name, also when that is an error and
    the other flags would have been enough to connect. *)
Theorem loadProjectDetails_named sur c opts :
  ctxString c "project" <> "" ->
  snd (loadProjectDetails sur c opts)
  = config_LoadProject sur (ctxString c "project") /\
  (forall err, config_LoadProject sur (ctxString c "project") = inl err ->
               loadProjectDetails sur c opts = ([], inl err)).
Proof.
  intros Hp. unfold loadProjectDetails. cbv zeta.
  apply nonEmpty_true in Hp. rewrite Hp.
  destruct (config_LoadProject sur (ctxString c "project")).
  - split; [reflexivity|]. now intros err [= <-].
  - split; [reflexivity | discriminate].
Qed.

Lemma loadProjectDetails_named_witness :
  flagsComplete false
    (contextOf [("project", "staging"); ("url", "ws://lk.example"); ("token", "tok")]) /\
  loadProjectDetails bareSurroundings
    (contextOf [("project", "staging"); ("url", "ws://lk.example"); ("token", "tok")])
    [ignoreURL]
  = ([], inl (ExternalError "project not found")).
Proof.
  split.
  - unfold flagsComplete; simpl. split; left; discriminate.
  - apply (proj2 (loadProjectDetails_named bareSurroundings
                    (contextOf [("project", "staging"); ("url", "ws://lk.example");
                                ("token", "tok")]) [ignoreURL] ltac:(discriminate))).
    reflexivity.
Defined.

Lemma logDetails_line sur c pc line :
  In line (logDetails sur c pc) ->
  ctxBool c "verbose" = true /\
  line = "URL: " ++ URL pc ++ ", api-key: " ++ APIKey pc ++ ", api-secret: "
         ++ masker_ID sur (APISecret pc) ++ newline.
Proof.
  unfold logDetails. destruct (ctxBool c "verbose"); [|intros []].
  intros [<- | []]. split; reflexivity.
Qed.

Lemma usingEnvironment_line sur c pc envVars line :
  incl envVars ["url"; "token"; "api-key"; "api-secret"] ->
  In line (usingEnvironment sur c pc envVars) ->
  (exists names, incl names ["url"; "token"; "api-key"; "api-secret"] /\
                 line = "Using " ++ strings_Join names ", "
                        ++ " from environment" ++ newline) \/
  In line (logDetails sur c pc).
Proof.
  intros Hincl. unfold usingEnvironment.
  destruct (0 <? Z.of_nat (List.length envVars)); [|intros []].
  intros [<- | Hin]; [left; now exists envVars | now right].
Qed.

(** X20: what [loadProjectDetails] prints.  It prints only when it returns a
    configuration, and every line is the name of the project used, or the
    list of the items taken from the environment, or, with [verbose] set,
    the details line, which shows the URL and the API key of the
    configuration returned and its secret as [masker.ID] renders it.  The
    token is not printed, and the secret only through [masker.ID]. *)
Theorem loadProjectDetails_prints sur c opts out r line :
  loadProjectDetails sur c opts = (out, r) ->
  In line out ->
  exists pc,
    r = inr pc /\
    (line = "Using project: " ++ ctxString c "project" ++ newline \/
     line = "Using default project " ++ Name pc ++ newline \/
     (exists names, incl names ["url"; "token"; "api-key"; "api-secret"] /\
                    line = "Using " ++ strings_Join names ", "
                           ++ " from environment" ++ newline) \/
     (ctxBool c "verbose" = true /\
      line = "URL: " ++ URL pc ++ ", api-key: " ++ APIKey pc ++ ", api-secret: "
             ++ masker_ID sur (APISecret pc) ++ newline)).
Proof.
  unfold loadProjectDetails. cbv zeta.
  assert (Henv : forall pc envVars,
             incl envVars ["url"; "token"; "api-key"; "api-secret"] ->
             (usingEnvironment sur c pc envVars, inr pc) = (out, r) ->
             In line out ->
             exists pc0, r = inr pc0 /\
               (line = "Using project: " ++ ctxString c "project" ++ newline \/
                line = "Using default project " ++ Name pc0 ++ newline \/
                (exists names,
                    incl names ["url"; "token"; "api-key"; "api-secret"] /\
                    line = "Using " ++ strings_Join names ", "
                           ++ " from environment" ++ newline) \/
                (ctxBool c "verbose" = true /\
                 line = "URL: " ++ URL pc0 ++ ", api-key: " ++ APIKey pc0
                        ++ ", api-secret: " ++ masker_ID sur (APISecret pc0)
                        ++ newline))).
  { intros pc envVars Hincl [= <- <-] Hin. exists pc. split; [reflexivity|].
    apply usingEnvironment_line in Hin as [Hnames | Hlog]; [| |exact Hincl].
    - right; right; left. exact Hnames.
    - right; right; right. now apply logDetails_line. }
  destruct (nonEmpty (ctxString c "project")).
  - destruct (config_LoadProject sur (ctxString c "project")) as [e | pc].
    + intros [= <- _] [].
    + intros [= <- <-] [<- | Hlog]; exists pc; (split; [reflexivity|]).
      * now left.
      * right; right; right. now apply logDetails_line.
  - destruct (nonEmpty (Token (pcFromFlags c)) && _).
    + apply Henv.
      destruct (String.eqb _ _ && _); destruct (String.eqb _ _);
        intros x Hx; simpl in *; tauto.
    + destruct (nonEmpty (APIKey (pcFromFlags c)) && _ && _).
      * apply Henv.
        destruct (String.eqb _ _ && _); destruct (String.eqb _ (APIKey _));
          destruct (String.eqb _ (APISecret _));
          intros x Hx; simpl in *; tauto.
      * destruct (config_LoadDefaultProject sur) as [e | dp].
        -- destruct (requireURL _ && _); [intros [= <- _] []|].
           destruct (String.eqb _ _ && _ && _); [intros [= <- _] []|].
           destruct (String.eqb (APIKey _) _); [intros [= <- _] []|].
           destruct (String.eqb (APISecret _) _); intros [= <- _] [].
        -- intros [= <- <-] [<- | Hlog]; exists dp; (split; [reflexivity|]).
           ++ right; now left.
           ++ right; right; right. now apply logDetails_line.
Qed.

Lemma loadProjectDetails_prints_witness :
  loadProjectDetails
    {| os_Getenv := fun name =>
         if String.eqb name "LIVEKIT_API_SECRET" then "s3cr3t" else "";
       config_LoadProject := fun _ => inl (ExternalError "project not found");
       config_LoadDefaultProject := inl (ExternalError "no default project set");
       masker_ID := fun _ => "****" |}
    (contextOf [("url", "ws://lk.example"); ("api-key", "APIabc");
                ("api-secret", "s3cr3t")]) []
  = (["Using api-secret from environment" ++ newline;
      "URL: ws://lk.example, api-key: APIabc, api-secret: ****" ++ newline],
     inr {| Name := ""; URL := "ws://lk.example"; Token := "";
            APIKey := "APIabc"; APISecret := "s3cr3t" |}) /\
  exists pc,
    @inr error ProjectConfig
      {| Name := ""; URL := "ws://lk.example"; Token := "";
         APIKey := "APIabc"; APISecret := "s3cr3t" |} = inr pc /\
    ("URL: ws://lk.example, api-key: APIabc, api-secret: ****" ++ newline
       = "URL: " ++ URL pc ++ ", api-key: " ++ APIKey pc ++ ", api-secret: "
         ++ "****" ++ newline).
Proof.
  split; [reflexivity|].
  destruct (loadProjectDetails_prints
              {| os_Getenv := fun name =>
                   if String.eqb name "LIVEKIT_API_SECRET" then "s3cr3t" else "";
                 config_LoadProject := fun _ => inl (ExternalError "project not found");
                 config_LoadDefaultProject := inl (ExternalError "no default project set");
                 masker_ID := fun _ => "****" |}
              (contextOf [("url", "ws://lk.example"); ("api-key", "APIabc");
                          ("api-secret", "s3cr3t")]) [] _ _
              ("URL: ws://lk.example, api-key: APIabc, api-secret: ****" ++ newline)
              eq_refl (or_intror (or_introl eq_refl)))
    as (pc & Hr & _).
  exists pc. split; [exact Hr|]. injection Hr as <-. reflexivity.
Defined.

(** ** The demo *)

Lemma demoLoop_spec sv (loopers : list VideoLooper) : forall i tracks t r,
  demoLoop sv i loopers tracks = (t, r) ->
  Forall (fun e => match e with
                   | NewLocalSampleTrack _ | StartWrite _ => True
                   | _ => False
                   end) t /\
  forall made, r = inr made ->
    made = (tracks ++ demoTracksOf i loopers)%list /\
    forall track, In track (demoTracksOf i loopers) ->
      lksdk_NewLocalSampleTrack sv track = None /\ track_StartWrite sv track = None.
Proof.
  induction loopers as [|looper rest IH]; intros i tracks t r H; simpl in H.
  - injection H as <- <-. split; [constructor|].
    intros made [= <-]. simpl. rewrite app_nil_r. split; [reflexivity | intros ? []].
  - destruct (lksdk_NewLocalSampleTrack sv _) as [err|] eqn:Hnew.
    { injection H as <- <-. split; [repeat constructor | discriminate]. }
    destruct (track_StartWrite sv _) as [err|] eqn:Hstart.
    { injection H as <- <-. split; [repeat constructor | discriminate]. }
    destruct (demoLoop sv (i + 1) rest _) as [t1 r1] eqn:Hrest.
    injection H as <- <-.
    apply IH in Hrest as [Hall Hmade]. split; [repeat constructor; exact Hall|].
    intros made Hr. destruct (Hmade made Hr) as [-> Hok]. simpl.
    split; [now rewrite <- app_assoc|].
    intros track [<- | Hin]; [split; assumption | now apply Hok].
Qed.



Lemma publishDemo_events sv t r :
  publishDemo sv = (t, r) -> Forall publishingEvent t.
Proof.
  unfold publishDemo.
  destruct (provider_CreateVideoLoopers sv) as [err | loopers].
  - intros [= <- _]. repeat constructor.
  - destruct (demoLoop sv 0 loopers []) as [t1 r1] eqn:Hloop.
    apply demoLoop_spec in Hloop as [Hall _].
    assert (Hall' : Forall publishingEvent t1).
    { eapply Forall_impl; [|exact Hall]. intros [] H; simpl in *; tauto. }
    destruct r1; intros [= <- _].
    + now constructor.
    + constructor; [exact I|]. apply Forall_app. split; [exact Hall'|].
      now repeat constructor.
Qed.

(** ** The command *)

Lemma joinRoom_connected_events sv c signalled fuel t o :
  joinRoom_connected sv c signalled fuel = (t, o) -> Forall publishingEvent t.
Proof.
  unfold joinRoom_connected.
  destruct (if ctxBool c "publish-demo" then publishDemo sv else ([], None))
    as [td derr] eqn:Hdemo.
  assert (Htd : Forall publishingEvent td).
  { destruct (ctxBool c "publish-demo").
    - eapply publishDemo_events; eassumption.
    - injection Hdemo as <- _. constructor. }
  destruct derr as [err|]; [now intros [= <- _]|].
  destruct (joinRoom_publish _ _ _ _ _) as [w o1].
  assert (Forall publishingEvent (td ++ map Publish (trace w))).
  { apply Forall_app. split; [exact Htd|].
    apply Forall_forall. intros e He. apply in_map_iff in He as (e0 & <- & _).
    exact I. }
  destruct o1 as [[e|]|msg|]; intros [= <- _]; assumption.
Qed.

(** The three ways [joinRoom] goes: no configuration, no connection, or
    connected. *)
Lemma joinRoom_shape sv c signalled fuel t o :
  joinRoom sv c signalled fuel = (t, o) ->
  exists out,
    (exists err, t = map Printed out /\ o = Returned (Some err) /\
                 snd (loadProjectDetails (surroundings sv) c []) = inl err) \/
    (exists call err,
        isConnect call /\ t = (map Printed out ++ [call])%list /\
        o = Returned (Some err)) \/
    (exists call room0 t',
        isConnect call /\ Forall publishingEvent t' /\
        joinRoom_connected sv c signalled fuel = (t', o) /\
        t = (map Printed out ++ [call; Infow "connected to room" room0] ++ t'
             ++ (if ended o then [Disconnect] else []))%list).
Proof.
  unfold joinRoom.
  destruct (loadProjectDetails (surroundings sv) c []) as [out [err | pc]].
  - intros [= <- <-]. exists out. left. now exists err.
  - set (conn := if nonEmpty (Token pc) then _ else _).
    assert (Hconn : isConnect (fst conn))
      by (subst conn; destruct (nonEmpty (Token pc)); exact I).
    destruct conn as [call [err | room0]]; simpl in Hconn.
    + intros [= <- <-]. exists out. right; left. now exists call, err.
    + destruct (joinRoom_connected sv c signalled fuel) as [t' o'] eqn:Hbody.
      pose proof (joinRoom_connected_events _ _ _ _ _ _ Hbody) as Hev.
      intros H. exists out. right; right. exists call, room0, t'.
      split; [exact Hconn|]. split; [exact Hev|].
      destruct o'; injection H as <- <-; (split; [reflexivity|]); simpl;
        rewrite <- ?app_assoc, ?app_nil_r; reflexivity.
Qed.

Lemma in_snoc_unique {A : Type} (x : A) (l : list A) :
  ~ In x l -> forall l1 l2, (l ++ [x])%list = (l1 ++ x :: l2)%list ->
  l2 = [] /\ ~ In x l1.
Proof.
  induction l as [|a l IH]; intros Hnot l1 l2 H; simpl in *.
  - destruct l1 as [|b l1]; simpl in H.
    + injection H as <-. split; [reflexivity | intros []].
    + injection H as _ H. destruct l1; discriminate H.
  - destruct l1 as [|b l1]; simpl in H.
    + injection H as ->. tauto.
    + injection H as <- H. apply IH in H as [-> Hl1]; [|tauto].
      split; [reflexivity|]. simpl. tauto.
Qed.

Lemma first_of_kind {A : Type} (Q : A -> Prop) (x e : A) (p : list A) :
  Forall Q p -> Q x -> ~ Q e ->
  forall pre post r, (pre ++ e :: post)%list = (p ++ x :: r)%list -> In x pre.
Proof.
  intros Hp Hx He. induction Hp as [|a p Ha _ IH]; intros pre post r H; simpl in H.
  - destruct pre as [|b pre]; simpl in H; injection H as -> _; [contradiction|].
    now left.
  - destruct pre as [|b pre]; simpl in H; injection H as -> H; [contradiction|].
    right. eapply IH; eassumption.
Qed.

Lemma no_Disconnect_publishing (t : list joinEvent) :
  Forall publishingEvent t -> ~ In Disconnect t.
Proof.
  intros Hall Hin. rewrite Forall_forall in Hall. exact (Hall _ Hin).
Qed.

Lemma no_Disconnect_printed (out : list string) : ~ In Disconnect (map Printed out).
Proof. intros Hin. apply in_map_iff in Hin as (x & Hx & _). discriminate Hx. Qed.

(** X22: [joinRoom] disconnects once, at the very end, and only from a room
    it has joined.  In the calls of any run [Disconnect] occurs at most
    once and nothing follows it; it occurs exactly when the connection was
    made and [joinRoom] has returned or panicked: not when the connection
    failed, and not while it is still publishing or waiting for a
    signal. *)
Theorem joinRoom_disconnects_once sv c signalled fuel t o :
  joinRoom sv c signalled fuel = (t, o) ->
  (forall t1 t2, t = (t1 ++ Disconnect :: t2)%list -> t2 = [] /\ ~ In Disconnect t1) /\
  (In Disconnect t <->
   (exists room0, In (Infow "connected to room" room0) t) /\ ended o = true).
Proof.
  intros H. apply joinRoom_shape in H as (out & Hshape).
  pose proof (no_Disconnect_printed out) as Hout.
  destruct Hshape as [(err & -> & -> & _) |
                      [(call & err & Hcall & -> & ->) |
                       (call & room0 & t' & Hcall & Hev & _ & ->)]].
  - assert (Hno : ~ In Disconnect (map Printed out)) by exact Hout.
    split.
    + intros t1 t2 Heq. exfalso. apply Hno. rewrite Heq.
      apply in_or_app. right. now left.
    + split; [intros Hin; now destruct (Hno Hin)|].
      intros [[room0 Hin] _]. apply in_map_iff in Hin as (x & Hx & _).
      discriminate Hx.
  - assert (Hno : ~ In Disconnect (map Printed out ++ [call])).
    { intros Hin. apply in_app_or in Hin as [Hin | [Heq | []]];
        [now apply Hout | now rewrite Heq in Hcall]. }
    split.
    + intros t1 t2 Heq. exfalso. apply Hno. rewrite Heq.
      apply in_or_app. right. now left.
    + split; [intros Hin; now destruct (Hno Hin)|].
      intros [[room0 Hin] _].
      apply in_app_or in Hin as [Hin | [Heq | []]];
        [|now rewrite Heq in Hcall].
      apply in_map_iff in Hin as (x & Hx & _). discriminate Hx.
  - set (body := (map Printed out ++ [call; Infow "connected to room" room0] ++ t')%list).
    assert (Hno : ~ In Disconnect body).
    { unfold body. intros Hin.
      apply in_app_or in Hin as [Hin | Hin]; [now apply Hout|].
      destruct Hin as [Heq | [Hin | Hin]];
        [now rewrite Heq in Hcall | discriminate Hin|].
      now apply no_Disconnect_publishing in Hev. }
    assert (Hconn : In (Infow "connected to room" room0) body).
    { unfold body. apply in_or_app. right. right. now left. }
    replace (map Printed out ++ [call; Infow "connected to room" room0] ++ t'
             ++ (if ended o then [Disconnect] else []))%list
      with (body ++ (if ended o then [Disconnect] else []))%list
      by (unfold body; now rewrite <- !app_assoc).
    destruct (ended o).
    + split.
      * intros t1 t2 Heq. eapply in_snoc_unique; eassumption.
      * split; [intros _|intros _; apply in_or_app; right; now left].
        split; [|reflexivity]. exists room0. apply in_or_app. now left.
    + rewrite app_nil_r. split.
      * intros t1 t2 Heq. exfalso. apply Hno. rewrite Heq.
        apply in_or_app. right. now left.
      * split; [intros Hin; now destruct (Hno Hin) | intros [_ Hf]; discriminate Hf].
Qed.

Lemma joinRoom_disconnects_once_witness :
  joinRoom (services bareSurroundings "" (session false []))
    (tokenContext false ["mp3://x"]) false 1
  = ([ConnectToRoomWithToken "ws://lk.example" "tok";
      Infow "connected to room" "lobby"; Disconnect],
     Returned (Some (Errorf "unsupported mime type: mp3"))) /\
  In Disconnect
    (fst (joinRoom (services bareSurroundings "" (session false []))
            (tokenContext false ["mp3://x"]) false 1)).
Proof.
  split; [reflexivity|].
  refine (proj2 (proj2 (joinRoom_disconnects_once
                          (services bareSurroundings "" (session false []))
                          (tokenContext false ["mp3://x"]) false 1 _ _ eq_refl)) _).
  split; [|reflexivity]. exists "lobby". right. now left.
Defined.

Lemma publishDemo_demoEvents sv t r :
  publishDemo sv = (t, r) -> Forall demoEvent t.
Proof.
  unfold publishDemo.
  destruct (provider_CreateVideoLoopers sv) as [err | loopers].
  - intros [= <- _]. repeat constructor.
  - destruct (demoLoop sv 0 loopers []) as [t1 r1] eqn:Hloop.
    apply demoLoop_spec in Hloop as [Hall _].
    assert (Hall' : Forall demoEvent t1).
    { eapply Forall_impl; [|exact Hall]. intros [] H; simpl in *; tauto. }
    destruct r1; intros [= <- _].
    + now constructor.
    + constructor; [exact I|]. apply Forall_app. split; [exact Hall'|].
      now repeat constructor.
Qed.

(** X23: the room is used only once it is joined.  Every call of a run that
    uses the room (the demo, a publish function, the disconnect) comes
    after the line "connected to room"; a run that gets no configuration or
    no connection makes none. *)
Theorem joinRoom_uses_room_when_connected sv c signalled fuel t o :
  joinRoom sv c signalled fuel = (t, o) ->
  forall pre e post,
    t = (pre ++ e :: post)%list -> usesRoom e ->
    exists room0, In (Infow "connected to room" room0) pre.
Proof.
  intros H pre e post Heq Huse.
  apply joinRoom_shape in H as (out & Hshape).
  assert (Hout : Forall (fun x => ~ usesRoom x) (map Printed out)).
  { apply Forall_forall. intros x Hx. apply in_map_iff in Hx as (s & <- & _).
    intros []. }
  assert (Hcallno : forall call, isConnect call -> ~ usesRoom call)
    by (intros []; simpl; tauto).
  assert (Hin : In e t) by (rewrite Heq; apply in_or_app; right; now left).
  destruct Hshape as [(err & -> & _) |
                      [(call & err & Hcall & -> & _) |
                       (call & room0 & t' & Hcall & _ & _ & ->)]].
  - rewrite Forall_forall in Hout. now destruct (Hout _ Hin).
  - apply in_app_or in Hin as [Hin | [<- | []]].
    + rewrite Forall_forall in Hout. now destruct (Hout _ Hin).
    + now destruct (Hcallno _ Hcall).
  - exists room0.
    apply (first_of_kind (fun x => ~ usesRoom x)
             (Infow "connected to room" room0) e (map Printed out ++ [call])
             ltac:(apply Forall_app; split;
                   [exact Hout | constructor; [now apply Hcallno | constructor]])
             ltac:(intros [])
             ltac:(tauto) pre post
             (t' ++ (if ended o then [Disconnect] else []))%list).
    rewrite <- Heq, <- app_assoc. reflexivity.
Qed.

Lemma joinRoom_uses_room_when_connected_witness :
  joinRoom (services bareSurroundings "" (session false []))
    (tokenContext false ["clip.ivf"]) false 1
  = ([ConnectToRoomWithToken "ws://lk.example" "tok";
      Infow "connected to room" "lobby";
      Publish (PublishTrack
                 {| trackSource := FileSource "clip.ivf";
                    trackOpts :=
                      [ReaderTrackWithOnWriteComplete
                         {| hookText := "finished writing file clip.ivf" ++ newline;
                            hookPub := 0 |}] |} "clip.ivf")],
     WaitingForSignal) /\
  exists room0,
    In (Infow "connected to room" room0)
      [ConnectToRoomWithToken "ws://lk.example" "tok";
       Infow "connected to room" "lobby"].
Proof.
  split; [reflexivity|].
  exact (joinRoom_uses_room_when_connected
           (services bareSurroundings "" (session false []))
           (tokenContext false ["clip.ivf"]) false 1 _ _ eq_refl
           [ConnectToRoomWithToken "ws://lk.example" "tok";
            Infow "connected to room" "lobby"] _ [] eq_refl I).
Defined.

(** X24: with a URL and a token on the command line (and no project named)
    [joinRoom] connects with that token to that URL, whatever the key, the
    secret, the room and the identity flags are, and never with
    [ConnectToRoom]. *)
Theorem joinRoom_connects_with_token sv c signalled fuel t o :
  ctxString c "project" = "" ->
  ctxString c "token" <> "" -> ctxString c "url" <> "" ->
  joinRoom sv c signalled fuel = (t, o) ->
  (exists out rest,
      t = (map Printed out
           ++ ConnectToRoomWithToken (ctxString c "url") (ctxString c "token")
           :: rest)%list) /\
  forall url info, ~ In (ConnectToRoom url info) t.
Proof.
  intros Hproj Htok Hurl H.
  assert (Hc : flagsComplete (requiredOf []) c)
    by (split; [now left | now left]).
  destruct (loadProjectDetails_unnamed (surroundings sv) c [] Hproj)
    as [[_ Hload] | [Hno _]]; [|contradiction].
  unfold joinRoom in H.
  destruct (loadProjectDetails (surroundings sv) c []) as [out r].
  simpl in Hload. subst r. cbn [Token URL flagsProject] in H.
  apply nonEmpty_true in Htok. rewrite Htok in H.
  assert (Hprinted : forall url info, ~ In (ConnectToRoom url info) (map Printed out)).
  { intros url info Hin. apply in_map_iff in Hin as (x & Hx & _). discriminate Hx. }
  destruct (lksdk_ConnectToRoomWithToken sv _ _) as [err | room0].
  - injection H as <- _. split; [now exists out, []|].
    intros url info Hin. apply in_app_or in Hin as [Hin | [Hin | []]];
      [now apply Hprinted in Hin | discriminate Hin].
  - destruct (joinRoom_connected sv c signalled fuel) as [t' o'] eqn:Hbody.
    apply joinRoom_connected_events in Hbody.
    assert (Hbody' : forall url info, ~ In (ConnectToRoom url info) t').
    { intros url info Hin. rewrite Forall_forall in Hbody. exact (Hbody _ Hin). }
    assert (Hall : forall url info tail,
               (forall u i, ~ In (ConnectToRoom u i) tail) ->
               ~ In (ConnectToRoom url info)
                   ((map Printed out
                     ++ [ConnectToRoomWithToken (ctxString c "url") (ctxString c "token");
                         Infow "connected to room" room0]) ++ tail)).
    { intros url info tail Htail Hin.
      apply in_app_or in Hin as [Hin | Hin]; [|now apply Htail in Hin].
      apply in_app_or in Hin as [Hin | [Hin | [Hin | []]]];
        [now apply Hprinted in Hin | discriminate Hin | discriminate Hin]. }
    destruct o'; injection H as <- _; (split; [eexists out, _;
      rewrite <- app_assoc; reflexivity|]); intros url info.
    + apply Hall. intros u i Hin.
      apply in_app_or in Hin as [Hin | [Hin | []]];
        [now apply Hbody' in Hin | discriminate Hin].
    + apply Hall. intros u i Hin.
      apply in_app_or in Hin as [Hin | [Hin | []]];
        [now apply Hbody' in Hin | discriminate Hin].
    + now apply Hall.
    + now apply Hall.
Qed.

Lemma joinRoom_connects_with_token_witness :
  exists out rest,
    fst (joinRoom (services bareSurroundings "" (session false []))
           (contextOf [("url", "ws://lk.example"); ("token", "tok");
                       ("api-key", "APIabc"); ("api-secret", "s3cr3t");
                       ("room", "lobby")]) true 1)
    = (map Printed out ++ ConnectToRoomWithToken "ws://lk.example" "tok" :: rest)%list.
Proof.
  destruct (joinRoom (services bareSurroundings "" (session false []))
              (contextOf [("url", "ws://lk.example"); ("token", "tok");
                          ("api-key", "APIabc"); ("api-secret", "s3cr3t");
                          ("room", "lobby")]) true 1) as [t o] eqn:H.
  exact (proj1 (joinRoom_connects_with_token
                  (services bareSurroundings "" (session false []))
                  (contextOf [("url", "ws://lk.example"); ("token", "tok");
                              ("api-key", "APIabc"); ("api-secret", "s3cr3t");
                              ("room", "lobby")]) true 1 t o eq_refl
                  ltac:(discriminate) ltac:(discriminate) H)).
Defined.

Lemma joinRoom_connected_cases sv c signalled fuel t o :
  joinRoom_connected sv c signalled fuel = (t, o) ->
  (ctxBool c "publish-demo" = true /\ Forall demoEvent t /\
   exists err, snd (publishDemo sv) = Some err /\ o = Returned (Some err)) \/
  ((ctxBool c "publish-demo" = true -> snd (publishDemo sv) = None) /\
   exists w o1,
     joinRoom_publish (room sv) fuel (ctxStringSlice c "publish")
       (ctxFloat64 c "fps") emptyWorld = (w, o1) /\
     o = match o1 with
         | Returns None => if signalled then Returned None else WaitingForSignal
         | Returns (Some err) => Returned (Some err)
         | Panics msg => Panicked msg
         | StillLooping => StillPublishing
         end).
Proof.
  unfold joinRoom_connected.
  destruct (ctxBool c "publish-demo").
  - destruct (publishDemo sv) as [td [err|]] eqn:Hdemo.
    + intros [= <- <-]. left. split; [reflexivity|].
      split; [eapply publishDemo_demoEvents; eassumption|].
      exists err. split; reflexivity.
    + destruct (joinRoom_publish _ _ _ _ _) as [w o1].
      intros H. right. split; [intros _; reflexivity|]. exists w, o1.
      split; [reflexivity|].
      destruct o1 as [[e|]|msg|]; now injection H as _ <-.
  - destruct (joinRoom_publish _ _ _ _ _) as [w o1].
    intros H. right. split; [discriminate|]. exists w, o1.
    split; [reflexivity|].
    destruct o1 as [[e|]|msg|]; now injection H as _ <-.
Qed.

(** X25: [joinRoom] returns nil only on a signal.  When it returns without
    an error, one of the signals has arrived, every specifier was handled
    without error, and the demo, if asked for, was published; without a
    signal a run that went well keeps waiting. *)
Theorem joinRoom_returns_nil sv c signalled fuel t :
  joinRoom sv c signalled fuel = (t, Returned None) ->
  signalled = true /\
  snd (joinRoom_publish (room sv) fuel (ctxStringSlice c "publish")
         (ctxFloat64 c "fps") emptyWorld) = Returns None /\
  (ctxBool c "publish-demo" = true -> snd (publishDemo sv) = None).
Proof.
  intros H. apply joinRoom_shape in H as (out & Hshape).
  destruct Hshape as [(err & _ & Ho & _) |
                      [(call & err & _ & _ & Ho) |
                       (call & room0 & t' & _ & _ & Hbody & _)]];
    try discriminate Ho.
  apply joinRoom_connected_cases in Hbody
    as [(_ & _ & err & _ & Ho) | (Hdemo & w & o1 & Hpub & Ho)];
    [discriminate Ho|].
  rewrite Hpub. simpl.
  destruct o1 as [[e|]|msg|]; try discriminate Ho.
  destruct signalled; [auto | discriminate Ho].
Qed.

Lemma joinRoom_returns_nil_witness :
  joinRoom (services bareSurroundings "" (session false []))
    (tokenContext true ["voice.ogg"]) true 0
  = ([ConnectToRoomWithToken "ws://lk.example" "tok";
      Infow "connected to room" "lobby";
      CreateVideoLoopers;
      NewLocalSampleTrack {| demoLooper := "high"; demoQuality := 0 |};
      StartWrite {| demoLooper := "high"; demoQuality := 0 |};
      NewLocalSampleTrack {| demoLooper := "medium"; demoQuality := 1 |};
      StartWrite {| demoLooper := "medium"; demoQuality := 1 |};
      NewLocalSampleTrack {| demoLooper := "low"; demoQuality := 2 |};
      StartWrite {| demoLooper := "low"; demoQuality := 2 |};
      PublishSimulcastTrack
        [{| demoLooper := "high"; demoQuality := 0 |};
         {| demoLooper := "medium"; demoQuality := 1 |};
         {| demoLooper := "low"; demoQuality := 2 |}] "demo";
      Publish (PublishTrack
                 {| trackSource := FileSource "voice.ogg";
                    trackOpts :=
                      [ReaderTrackWithOnWriteComplete
                         {| hookText := "finished writing file voice.ogg" ++ newline;
                            hookPub := 0 |}] |} "voice.ogg");
      Disconnect],
     Returned None) /\
  snd (joinRoom_publish (session false []) 0 ["voice.ogg"] 0 emptyWorld)
  = Returns None.
Proof.
  split; [reflexivity|].
  exact (proj1 (proj2 (joinRoom_returns_nil
                         (services bareSurroundings "" (session false []))
                         (tokenContext true ["voice.ogg"]) true 0 _ eq_refl))).
Defined.

(** X26: the demo comes first and stands in the way.  When the demo is
    asked for, a publish function is called only if [publishDemo] returned
    without error; when it fails, [joinRoom] returns its error and no
    specifier is handled. *)
Theorem joinRoom_demo_first sv c signalled fuel t o :
  joinRoom sv c signalled fuel = (t, o) ->
  ctxBool c "publish-demo" = true ->
  (forall e, In (Publish e) t -> snd (publishDemo sv) = None) /\
  (forall err room0,
      snd (publishDemo sv) = Some err ->
      In (Infow "connected to room" room0) t ->
      o = Returned (Some err)).
Proof.
  intros H Hflag. apply joinRoom_shape in H as (out & Hshape).
  assert (Hout : forall x, In x (map Printed out) -> exists s, x = Printed s).
  { intros x Hx. apply in_map_iff in Hx as (s & <- & _). eauto. }
  destruct Hshape as [(err & -> & _) |
                      [(call & err & Hcall & -> & _) |
                       (call & room0 & t' & Hcall & _ & Hbody & ->)]].
  - split.
    + intros e Hin. apply Hout in Hin as [s Hs]. discriminate Hs.
    + intros err0 room0 _ Hin. apply Hout in Hin as [s Hs]. discriminate Hs.
  - split.
    + intros e Hin. apply in_app_or in Hin as [Hin | [Heq | []]].
      * apply Hout in Hin as [s Hs]. discriminate Hs.
      * now rewrite Heq in Hcall.
    + intros err0 room0 _ Hin. apply in_app_or in Hin as [Hin | [Heq | []]].
      * apply Hout in Hin as [s Hs]. discriminate Hs.
      * now rewrite Heq in Hcall.
  - apply joinRoom_connected_cases in Hbody
      as [(_ & Hev & err & Herr & Ho) | (Hdemo & _)].
    + split.
      * intros e Hin. exfalso.
        apply in_app_or in Hin as [Hin | Hin];
          [apply Hout in Hin as [s Hs]; discriminate Hs|].
        simpl in Hin. destruct Hin as [Heq | [Heq | Hin]];
          [now rewrite Heq in Hcall | discriminate Heq|].
        apply in_app_or in Hin as [Hin | Hin].
        -- rewrite Forall_forall in Hev. exact (Hev _ Hin).
        -- destruct (ended o); [destruct Hin as [Heq | []]; discriminate Heq
                               | destruct Hin].
      * intros err0 room1 Herr0 _. congruence.
    + split; [intros e _; now apply Hdemo|].
      intros err0 room1 Herr0 _. rewrite (Hdemo Hflag) in Herr0. discriminate.
Qed.

Lemma joinRoom_demo_first_witness :
  snd (publishDemo (services bareSurroundings "high" (session false [])))
  = Some (ExternalError "start write") /\
  snd (joinRoom (services bareSurroundings "high" (session false []))
         (tokenContext true ["clip.ivf"]) true 1)
  = Returned (Some (ExternalError "start write")).
Proof.
  split; [reflexivity|].
  destruct (joinRoom (services bareSurroundings "high" (session false []))
              (tokenContext true ["clip.ivf"]) true 1) as [t o] eqn:H.
  refine (proj2 (joinRoom_demo_first
                   (services bareSurroundings "high" (session false []))
                   (tokenContext true ["clip.ivf"]) true 1 t o H eq_refl)
            (ExternalError "start write") "lobby" eq_refl _).
  revert H. vm_compute. intros [= <- _]. right. now left.
Defined.
